(** * Day 3 of Advent of Code 2018 (2018/Python/Challenges/Day3.py)

    A shallow embedding of [main]: the claim parser (a regular expression
    search followed by [int]), the ordered [claims] dictionary, the
    accumulation of claims on the fabric grid, and the two reports.

    Python integers are [Z].  A line of the input file is a list of
    characters; characters are code points below 256, for which the class
    [\d] of the regular expression is exactly the ten ASCII digits.  [int]
    has the limit of CPython on the digits of a string.  The mutable locals [fabric] and [claims], the standard output and the
    exceptions of the run are threaded through a state and error monad. *)

From Stdlib Require Import ZArith Ascii String.
From stdpp Require Import base tactics option numbers list.

Local Open Scope Z_scope.

#[local] Set Warnings "-clear-no-such-hyp".

(** ** Text *)

Definition text : Type := list ascii.

Definition T (s : string) : text := list_ascii_of_string s.

Definition is_digit (c : ascii) : bool :=
  (48 <=? nat_of_ascii c)%nat && (nat_of_ascii c <=? 57)%nat.

Definition digit_value (c : ascii) : Z := Z.of_nat (nat_of_ascii c) - 48.

(** ** Exceptions *)

Inductive exn : Type :=
  | AttributeError   (* [None.groups()] *)
  | ValueError       (* [int] of a string that is no number, unpacking *)
  | IndexError.      (* a grid position outside the grid *)

Inductive result (A : Type) : Type :=
  | Ok (a : A)
  | Raise (e : exn).

Arguments Ok {A} a.
Arguments Raise {A} e.

(** ** The regular expression [#(\d+) @ (\d+),(\d+): (\d+)x(\d+)] *)

Module Regex.

(** The pattern only uses literal characters and the capturing group
    [(\d+)]. *)
Inductive atom : Type :=
  | Lit (c : ascii)
  | Digits.

Definition regex : Type := list atom.

Fixpoint first_success {A B} (f : A → option B) (l : list A) : option B :=
  match l with
  | [] => None
  | a :: l' =>
      match f a with
      | Some b => Some b
      | None => first_success f l'
      end
  end.

(** The number of leading characters of [s] that are digits. *)
Fixpoint digit_run (s : text) : nat :=
  match s with
  | c :: s' => if is_digit c then S (digit_run s') else O
  | [] => O
  end.

(** [match_here re s]: the groups of a match of [re] that starts at the
    first character of [s].  [\d+] is greedy: it takes the longest run of
    digits first and backtracks to shorter ones, down to one digit. *)
Fixpoint match_here (re : regex) (s : text) : option (list text) :=
  match re with
  | [] => Some []
  | Lit c :: re' =>
      match s with
      | c' :: s' => if Ascii.eqb c c' then match_here re' s' else None
      | [] => None
      end
  | Digits :: re' =>
      first_success
        (λ k, match match_here re' (drop k s) with
              | Some gs => Some (take k s :: gs)
              | None => None
              end)
        (reverse (seq 1 (digit_run s)))
  end.

(** [Pattern.search]: the match at the leftmost position that has one. *)
Fixpoint search (re : regex) (s : text) : option (list text) :=
  match match_here re s with
  | Some gs => Some gs
  | None =>
      match s with
      | [] => None
      | _ :: s' => search re s'
      end
  end.

End Regex.

Import Regex.

Definition pattern : regex :=
  [Lit "#"; Digits; Lit " "; Lit "@"; Lit " "; Digits; Lit ","; Digits;
   Lit ":"; Lit " "; Digits; Lit "x"; Digits].

(** The limit of CPython on the digits of a string that [int] converts
    ([sys.int_max_str_digits], by default). *)
Definition max_str_digits : Z := 4300.

(** [int] on a string of decimal digits; [ValueError] on the strings that
    hold another character or none, and on those of more digits than the
    limit. *)
Definition int (s : text) : result Z :=
  if forallb is_digit s && negb (Nat.eqb (length s) 0)
  then
    if max_str_digits <? Z.of_nat (length s) then Raise ValueError
    else Ok (fold_left (λ n c, 10 * n + digit_value c) s 0)
  else Raise ValueError.

Fixpoint map_int (gs : list text) : result (list Z) :=
  match gs with
  | [] => Ok []
  | g :: gs' =>
      match int g with
      | Raise e => Raise e
      | Ok n =>
          match map_int gs' with
          | Raise e => Raise e
          | Ok ns => Ok (n :: ns)
          end
      end
  end.

Definition Rect : Type := Z * Z * Z * Z.

(** [req, x, y, w, h = map(int, pattern.search(line).groups())] *)
Definition parse_line (line : text) : result (Z * Z * Z * Z * Z) :=
  match search pattern line with
  | None => Raise AttributeError
  | Some gs =>
      match map_int gs with
      | Raise e => Raise e
      | Ok [req; x; y; w; h] => Ok (req, x, y, w, h)
      | Ok _ => Raise ValueError
      end
  end.

(** ** The grid *)

Module Grid.

(** Modelled from the spec: the class [Grid] of the module [Utils], which
    [main] imports and which is not part of the sources at hand.  The
    spec describes it as a fixed-size width by height dense 2-D array,
    addressable by (x, y), every cell initialised to the given value;
    iterating it scans every cell once.  A position outside the array is
    an [IndexError]. *)
Record t (A : Type) : Type := mk {
  width : Z;
  height : Z;
  rows : list (list A)
}.

Arguments mk {A} _ _ _.
Arguments width {A} _.
Arguments height {A} _.
Arguments rows {A} _.

(** Modelled from the spec: [Grid(w, h, default)], a grid of [w] by [h]
    cells that all hold [default]. *)
Definition new {A} (w h : Z) (default : A) : t A :=
  mk w h (replicate (Z.to_nat h) (replicate (Z.to_nat w) default)).

(** Modelled from the spec: the positions (x, y) of the grid are those with
    0 <= x < width and 0 <= y < height. *)
Definition inside {A} (g : t A) (pos : Z * Z) : bool :=
  (0 <=? pos.1) && (pos.1 <? width g) && (0 <=? pos.2) && (pos.2 <? height g).

(** Modelled from the spec: [g[pos]], the cell at a position of the grid. *)
Definition getitem {A} (g : t A) (pos : Z * Z) : result A :=
  if inside g pos then
    match rows g !! Z.to_nat pos.2 with
    | Some row =>
        match row !! Z.to_nat pos.1 with
        | Some v => Ok v
        | None => Raise IndexError
        end
    | None => Raise IndexError
    end
  else Raise IndexError.

(** Modelled from the spec: [g[pos] = v], which stores [v] in the cell at a
    position of the grid and leaves the other cells. *)
Definition setitem {A} (g : t A) (pos : Z * Z) (v : A) : result (t A) :=
  if inside g pos then
    match rows g !! Z.to_nat pos.2 with
    | Some row =>
        if (Z.to_nat pos.1 <? length row)%nat then
          Ok (mk (width g) (height g)
                 (<[Z.to_nat pos.2 := <[Z.to_nat pos.1 := v]> row]> (rows g)))
        else Raise IndexError
    | None => Raise IndexError
    end
  else Raise IndexError.

(** Modelled from the spec: [for v in g], which scans every cell of the
    grid once. *)
Definition iter {A} (g : t A) : list A := concat (rows g).

End Grid.

(** ** The state of a run and its monad *)

Record state : Type := mkState {
  fabric : Grid.t Z;
  claims : list (Z * Rect);      (* a [dict], in insertion order *)
  stdout : list (string * Z)     (* the arguments of each [print] *)
}.

Definition M (A : Type) : Type := state → result A * state.

Definition ret {A} (a : A) : M A := λ st, (Ok a, st).

Definition bind {A B} (m : M A) (k : A → M B) : M B :=
  λ st, match m st with
        | (Ok a, st') => k a st'
        | (Raise e, st') => (Raise e, st')
        end.

Global Instance M_ret : MRet M := @ret.
Global Instance M_bind : MBind M := λ A B k m, bind m k.

Notation "'let*' x ':=' m 'in' k" := (bind m (λ x, k))
  (at level 10, x name, m at level 100, k at level 200).

Definition lift {A} (r : result A) : M A := λ st, (r, st).

(** [for a in l: body(a)] *)
Fixpoint for_ {A} (l : list A) (body : A → M unit) : M unit :=
  match l with
  | [] => ret tt
  | a :: l' => body a;; for_ l' body
  end.

(** How the body of a loop ends: it falls through or runs [continue], or it
    runs [break]. *)
Inductive flow : Type := Continue | Break.

(** [for a in l: body(a) else: ...]; the result tells whether the [else]
    branch runs, that is whether the loop ended without a [break]. *)
Fixpoint for_else {A} (l : list A) (body : A → M flow) : M bool :=
  match l with
  | [] => ret true
  | a :: l' =>
      let* f := body a in
      match f with
      | Break => ret false
      | Continue => for_else l' body
      end
  end.

(** [range(a, b)] *)
Definition range (a b : Z) : list Z := seqZ a (b - a).

(** [fabric[pos]] *)
Definition fabric_get (pos : Z * Z) : M Z :=
  λ st, (Grid.getitem (fabric st) pos, st).

(** [fabric[pos] = v] *)
Definition fabric_set (pos : Z * Z) (v : Z) : M unit :=
  λ st, match Grid.setitem (fabric st) pos v with
        | Ok g => (Ok tt, mkState g (claims st) (stdout st))
        | Raise e => (Raise e, st)
        end.

(** [d[k] = v] on a [dict]: a key that is present keeps its place and takes
    the new value, a new key goes to the end. *)
Fixpoint dict_set (k : Z) (v : Rect) (d : list (Z * Rect)) : list (Z * Rect) :=
  match d with
  | [] => [(k, v)]
  | (k', v') :: d' =>
      if k =? k' then (k, v) :: d' else (k', v') :: dict_set k v d'
  end.

(** [claims[req] = rect] *)
Definition claims_set (req : Z) (rect : Rect) : M unit :=
  λ st, (Ok tt,
         mkState (fabric st) (dict_set req rect (claims st)) (stdout st)).

(** [print(label, n)] *)
Definition print (label : string) (n : Z) : M unit :=
  λ st, (Ok tt, mkState (fabric st) (claims st) (stdout st ++ [(label, n)])).

(** ** [main] *)

Definition width : Z := 1000.

(** [fabric[(i, j)] += 1] *)
Definition increment (pos : Z * Z) : M unit :=
  let* v := fabric_get pos in fabric_set pos (v + 1).

(** The two loops that increment the use count of every cell of a claim. *)
Definition accumulate (rect : Rect) : M unit :=
  let '(x, y, w, h) := rect in
  for_ (range x (x + w)) (λ i,
    for_ (range y (y + h)) (λ j,
      increment (i, j))).

(** The body of [for line in f]. *)
Definition process_line (line : text) : M unit :=
  let* t := lift (parse_line line) in
  let '(req, x, y, w, h) := t in
  claims_set req (x, y, w, h);;
  accumulate (x, y, w, h).

Definition read_file (lines : list text) : M unit := for_ lines process_line.

(** [sum(1 for i in fabric if i > 1)] *)
Definition overlap_count (g : Grid.t Z) : Z :=
  fold_left Z.add (map (λ _, 1) (List.filter (λ i, 1 <? i) (Grid.iter g))) 0.

Definition part_one : M unit :=
  λ st, print "Part one count:" (overlap_count (fabric st)) st.

(** The loops over the cells of one claim in part two; the result tells
    whether both ended without a [break]. *)
Definition check_claim (rect : Rect) : M bool :=
  let '(x, y, w, h) := rect in
  for_else (range x (x + w)) (λ i,
    let* inner := for_else (range y (y + h)) (λ j,
      let* v := fabric_get (i, j) in
      if negb (v =? 1) then ret Break else ret Continue) in
    if inner then ret Continue else ret Break).

(** [for req, (x, y, w, h) in claims.items()], left by [return] at the
    first claim whose loops end without a [break]. *)
Fixpoint check_claims (cs : list (Z * Rect)) : M unit :=
  match cs with
  | [] => ret tt
  | (req, rect) :: cs' =>
      let* found := check_claim rect in
      if found then print "Part two ID:" req else check_claims cs'
  end.

Definition part_two : M unit := λ st, check_claims (claims st) st.

Definition init : state := mkState (Grid.new width width 0) [] [].

(** [main], on the lines of the file named by its argument. *)
Definition main (lines : list text) : result unit * state :=
  (read_file lines;; part_one;; part_two) init.

Definition example : list text :=
  [T "#1 @ 1,3: 4x4"; T "#2 @ 3,1: 4x4"; T "#3 @ 5,5: 2x2"].

(** ** Notions used to state the properties *)

(** A non-empty string of decimal digits. *)
Definition digits (d : text) : Prop :=
  d ≠ [] ∧ Forall (λ c, is_digit c = true) d.

(** The number a string of decimal digits denotes, by positional weight. *)
Fixpoint decimal (d : text) : Z :=
  match d with
  | [] => 0
  | c :: d' => digit_value c * 10 ^ Z.of_nat (length d') + decimal d'
  end.

(** The text [#<id> @ <x>,<y>: <w>x<h>] with the given fields. *)
Definition claim_text (id x y w h : text) : text :=
  T "#" ++ id ++ T " @ " ++ x ++ T "," ++ y ++ T ": " ++ w ++ T "x" ++ h.

(** [s] begins with a claim. *)
Definition starts_with_claim (s : text) : Prop :=
  ∃ id x y w h rest,
    digits id ∧ digits x ∧ digits y ∧ digits w ∧ digits h ∧
    s = claim_text id x y w h ++ rest.

(** A claim occurs somewhere in [line]. *)
Definition contains_claim (line : text) : Prop :=
  ∃ before s, line = before ++ s ∧ starts_with_claim s.

(** The claim of a line, as [main] keeps it: its id and its rectangle. *)
Definition parse_claim (line : text) : result (Z * Rect) :=
  match parse_line line with
  | Ok (req, x, y, w, h) => Ok (req, (x, y, w, h))
  | Raise e => Raise e
  end.

Definition no_leading_digit (s : text) : Prop :=
  match s with
  | [] => True
  | c :: _ => is_digit c = false
  end.

(** The text that [re] matches when its groups hold [gs]. *)
Fixpoint instance_of (re : regex) (gs : list text) : option text :=
  match re with
  | [] => match gs with [] => Some [] | _ :: _ => None end
  | Lit c :: re' => cons c <$> instance_of re' gs
  | Digits :: re' =>
      match gs with
      | g :: gs' => app g <$> instance_of re' gs'
      | [] => None
      end
  end.

(** Every group [(\d+)] is followed by a literal that is no digit, or ends
    the expression. *)
Fixpoint delimited (re : regex) : bool :=
  match re with
  | [] => true
  | Lit _ :: re' => delimited re'
  | Digits :: re' =>
      match re' with
      | [] => true
      | Lit c :: _ => negb (is_digit c)
      | Digits :: _ => false
      end && delimited re'
  end.

Module GridSpec.

(** A grid is well formed when it has [height] rows of [width] cells. *)
Record wf {A} (g : Grid.t A) : Prop := mk_wf {
  wf_width : 0 ≤ Grid.width g;
  wf_height : 0 ≤ Grid.height g;
  wf_rows : length (Grid.rows g) = Z.to_nat (Grid.height g);
  wf_row : Forall (λ row, length row = Z.to_nat (Grid.width g)) (Grid.rows g)
}.

(** Every position of the grid, row by row. *)
Definition positions {A} (g : Grid.t A) : list (Z * Z) :=
  j ← seqZ 0 (Grid.height g); i ← seqZ 0 (Grid.width g); [(i, j)].

End GridSpec.

(** The cell (i, j) lies in the rectangle: x <= i < x + w and
    y <= j < y + h. *)
Definition covers (rect : Rect) (pos : Z * Z) : bool :=
  let '(x, y, w, h) := rect in
  (x <=? pos.1) && (pos.1 <? x + w) && (y <=? pos.2) && (pos.2 <? y + h).

(** The number of claims of [cs] whose rectangle contains [pos]. *)
Definition covering (cs : list (Z * Rect)) (pos : Z * Z) : Z :=
  Z.of_nat (length (List.filter (λ c, covers c.2 pos) cs)).

(** The rectangle lies inside the grid of [main]: each of its cells is a
    position of the grid. *)
Definition in_fabric (rect : Rect) : Prop :=
  ∀ pos, covers rect pos = true →
         0 ≤ pos.1 < width ∧ 0 ≤ pos.2 < width.

(** The dictionary after the assignments [claims[req] = rect] of [cs]. *)
Definition dict_of (cs d : list (Z * Rect)) : list (Z * Rect) :=
  fold_left (λ d c, dict_set c.1 c.2 d) cs d.

(** Every cell of the rectangle holds exactly 1. *)
Definition all_ones (g : Grid.t Z) (rect : Rect) : Prop :=
  ∀ pos, covers rect pos = true → Grid.getitem g pos = Ok 1.

(** The rectangle of the last claim of [cs] that carries the id [req]. *)
Definition last_rect (req : Z) (cs : list (Z * Rect)) : option Rect :=
  snd <$> List.find (λ c, c.1 =? req) (reverse cs).

(** The cells of a rectangle, in the order the loops of [main] visit them. *)
Definition rect_cells (rect : Rect) : list (Z * Z) :=
  let '(x, y, w, h) := rect in
  i ← range x (x + w); j ← range y (y + h); [(i, j)].

(** [g'] has the shape of [g], and every cell of [g] has grown by [delta]. *)
Record grows (delta : Z * Z → Z) (g g' : Grid.t Z) : Prop := mk_grows {
  grows_width : Grid.width g' = Grid.width g;
  grows_height : Grid.height g' = Grid.height g;
  grows_wf : GridSpec.wf g → GridSpec.wf g';
  grows_cell : ∀ q v,
    Grid.getitem g q = Ok v → Grid.getitem g' q = Ok (v + delta q)
}.

(** The number of positions of the grid whose cell holds more than 1. *)
Definition overlaps (g : Grid.t Z) : Z :=
  Z.of_nat (length (List.filter
    (λ pos, match Grid.getitem g pos with
            | Ok v => 1 <? v
            | Raise _ => false
            end)
    (GridSpec.positions g))).

(** [all_ones], decided cell by cell. *)
Definition ones (g : Grid.t Z) (rect : Rect) : bool :=
  forallb
    (λ pos, match Grid.getitem g pos with
            | Ok v => v =? 1
            | Raise _ => false
            end)
    (rect_cells rect).

(** The fabric is a well formed grid of the size [main] creates. *)
Definition fabric_ok (st : state) : Prop :=
  GridSpec.wf (fabric st) ∧
  Grid.width (fabric st) = width ∧ Grid.height (fabric st) = width.

(** A field that [int] converts: it has no more digits than the limit. *)
Definition within_limit (d : text) : Prop :=
  Z.of_nat (length d) ≤ max_str_digits.

(** The line is a claim and nothing else, but for the newline that may end
    it. *)
Definition claim_line (line : text) : Prop :=
  ∃ id x y w h,
    digits id ∧ digits x ∧ digits y ∧ digits w ∧ digits h ∧
    (line = claim_text id x y w h ∨
     line = claim_text id x y w h ++ [ascii_of_nat 10]).


(** An id of 4301 digits. *)
Definition long_id : text := replicate 4301 "1"%char.

(** ** Notions for the further properties *)

(** The positions of the grid of [main]. *)
Definition all_positions : list (Z * Z) :=
  j ← seqZ 0 width; i ← seqZ 0 width; [(i, j)].

(** The number of positions that two or more claims of [cs] contain. *)
Definition shared_cells (cs : list (Z * Rect)) : Z :=
  Z.of_nat (length (List.filter (λ pos, 1 <? covering cs pos) all_positions)).

(** No other claim of [cs] contains a cell of the claim [c]. *)
Definition overlaps_none (cs : list (Z * Rect)) (c : Z * Rect) : Prop :=
  ∀ c' pos,
    c' ∈ cs → c' ≠ c → covers c.2 pos = true → covers c'.2 pos = false.

(** A string of zeros. *)
Definition zeros (z : text) : Prop := Forall (λ c, c = "0"%char) z.

(** A line with text around its claim. *)
Definition wrapped : text := T "claim #12 @ 3,4: 5x6 (elf 7)".

(** ** Inputs *)

Definition newline : ascii := ascii_of_nat 10.

(** The claims of the example, as the dictionary holds them. *)
Definition example_claims : list (Z * Rect) :=
  [(1, (1, 3, 4, 4)); (2, (3, 1, 4, 4)); (3, (5, 5, 2, 2))].

(** The id 1 comes twice: its first rectangle overlaps the claim 2, its
    second one is on its own. *)
Definition twice : list text :=
  [T "#1 @ 0,0: 2x2"; T "#2 @ 0,0: 1x1"; T "#1 @ 5,5: 1x1"].

Definition twice_claims : list (Z * Rect) :=
  [(1, (0, 0, 2, 2)); (2, (0, 0, 1, 1)); (1, (5, 5, 1, 1))].

(** Two claims that share the cell (1, 1). *)
Definition overlapping : list text := [T "#1 @ 0,0: 2x2"; T "#2 @ 1,1: 2x2"].

(** * Properties *)

(** ** The grid *)

Section grid.
Context {A : Type}.
Implicit Types (g : Grid.t A) (pos : Z * Z).
Import GridSpec.

Lemma inside_iff g pos :
  Grid.inside g pos = true ↔
  0 ≤ pos.1 < Grid.width g ∧ 0 ≤ pos.2 < Grid.height g.
Proof. unfold Grid.inside. rewrite !andb_true_iff. lia. Qed.

Lemma new_wf (w h : Z) (d : A) : 0 ≤ w → 0 ≤ h → wf (Grid.new w h d).
Proof.
  intros Hw Hh. split; simpl; try done.
  - apply length_replicate.
  - apply Forall_replicate, length_replicate.
Qed.

Lemma getitem_new (w h : Z) (d : A) pos :
  Grid.inside (Grid.new w h d) pos = true →
  Grid.getitem (Grid.new w h d) pos = Ok d.
Proof.
  intros Hin. unfold Grid.getitem. rewrite Hin.
  apply inside_iff in Hin. simpl in *.
  rewrite lookup_replicate_2 by lia.
  by rewrite lookup_replicate_2 by lia.
Qed.

Lemma getitem_outside g pos :
  Grid.inside g pos = false → Grid.getitem g pos = Raise IndexError.
Proof. intros Hout. unfold Grid.getitem. by rewrite Hout. Qed.

Lemma getitem_inside g pos :
  wf g → Grid.inside g pos = true → ∃ v, Grid.getitem g pos = Ok v.
Proof.
  intros [Hw Hh Hrows Hrow] Hin. unfold Grid.getitem. rewrite Hin.
  apply inside_iff in Hin.
  destruct (lookup_lt_is_Some_2 (Grid.rows g) (Z.to_nat pos.2)) as [row Hr];
    [lia|].
  rewrite Hr.
  pose proof (Forall_lookup_1 _ _ _ _ Hrow Hr) as Hlen. simpl in Hlen.
  destruct (lookup_lt_is_Some_2 row (Z.to_nat pos.1)) as [v Hv]; [lia|].
  rewrite Hv. by exists v.
Qed.

(** A store that succeeds keeps the shape of the grid, whatever the grid. *)
Lemma setitem_shape g pos v g' :
  Grid.setitem g pos v = Ok g' →
  Grid.width g' = Grid.width g ∧ Grid.height g' = Grid.height g ∧
  (wf g → wf g').
Proof.
  unfold Grid.setitem. destruct (Grid.inside g pos); [|done].
  destruct (Grid.rows g !! Z.to_nat pos.2) as [row|] eqn:Hr; [|done].
  destruct (Z.to_nat pos.1 <? length row)%nat; [|done].
  intros [= <-]. simpl. split_and!; try done.
  intros [Hw Hh Hrows Hrow]. split; simpl; try done.
  - by rewrite length_insert.
  - apply Forall_insert; [done|]. rewrite length_insert.
    by apply (Forall_lookup_1 _ _ _ _ Hrow Hr).
Qed.

Lemma setitem_inside g pos v :
  wf g → Grid.inside g pos = true →
  ∃ g', Grid.setitem g pos v = Ok g' ∧
        Grid.getitem g' pos = Ok v ∧
        ∀ q, q ≠ pos → Grid.getitem g' q = Grid.getitem g q.
Proof.
  intros [Hw Hh Hrows Hrow] Hin. unfold Grid.setitem. rewrite Hin.
  pose proof (proj1 (inside_iff _ _) Hin) as [Hx Hy].
  destruct (lookup_lt_is_Some_2 (Grid.rows g) (Z.to_nat pos.2)) as [row Hr];
    [lia|].
  rewrite Hr.
  pose proof (Forall_lookup_1 _ _ _ _ Hrow Hr) as Hlen. simpl in Hlen.
  destruct (Nat.ltb_spec (Z.to_nat pos.1) (length row)) as [Hlt|]; [|lia].
  eexists. split; [done|]. split.
  - unfold Grid.getitem, Grid.inside. simpl.
    fold (Grid.inside g pos). rewrite Hin.
    rewrite list_lookup_insert_eq by lia.
    by rewrite list_lookup_insert_eq by lia.
  - intros q Hq. unfold Grid.getitem, Grid.inside. simpl.
    fold (Grid.inside g q).
    destruct (Grid.inside g q) eqn:Hinq; [|done].
    pose proof (proj1 (inside_iff _ _) Hinq) as [Hqx Hqy].
    destruct (decide (Z.to_nat q.2 = Z.to_nat pos.2)) as [Heq|Hne].
    + rewrite Heq, Hr, list_lookup_insert_eq by lia.
      rewrite list_lookup_insert_ne; [done|].
      intros Heq1. apply Hq. destruct q, pos; simpl in *. f_equal; lia.
    + by rewrite list_lookup_insert_ne.
Qed.

End grid.

(** ** The monad and the loops *)

Ltac unfold_M := unfold mbind, M_bind, mret, M_ret, bind, ret, lift in *.

Lemma bind_Ok {A B} (m : M A) (k : A → M B) st a st' :
  m st = (Ok a, st') → bind m k st = k a st'.
Proof. unfold bind. by intros ->. Qed.

Lemma bind_Raise {A B} (m : M A) (k : A → M B) st e st' :
  m st = (Raise e, st') → bind m k st = (Raise e, st').
Proof. unfold bind. by intros ->. Qed.

Lemma seq_Ok {A B} (m : M A) (k : M B) st a st' :
  m st = (Ok a, st') → (m;; k) st = k st'.
Proof. unfold_M. by intros ->. Qed.

Lemma seq_Raise {A B} (m : M A) (k : M B) st e st' :
  m st = (Raise e, st') → (m;; k) st = (Raise e, st').
Proof. unfold_M. by intros ->. Qed.

Lemma for_app {A} (l1 l2 : list A) body st :
  for_ (l1 ++ l2) body st = (for_ l1 body;; for_ l2 body) st.
Proof.
  revert st. induction l1 as [|a l1 IH]; intros st; [done|].
  simpl. unfold_M. destruct (body a st) as [[[]|e] st1]; [|done].
  apply IH.
Qed.

Lemma for_singletons {A B} (g : A → B) (l : list A) body st :
  for_ (a ← l; [g a]) body st = for_ l (λ a, body (g a)) st.
Proof.
  revert st. induction l as [|a l IH]; intros st; [done|].
  simpl. unfold_M. destruct (body (g a) st) as [[[]|e] st1]; [|done].
  apply IH.
Qed.

(** Two nested loops visit the pairs of the two lists, row by row. *)
Lemma for_nested {A B} (xs : list A) (ys : list B) body st :
  for_ xs (λ i, for_ ys (λ j, body (i, j))) st
  = for_ (i ← xs; j ← ys; [(i, j)]) body st.
Proof.
  revert st. induction xs as [|i xs IH]; intros st; [done|].
  rewrite bind_cons, for_app. simpl. unfold_M.
  rewrite for_singletons.
  destruct (for_ ys _ st) as [[[]|e] st1]; [|done].
  apply IH.
Qed.

Lemma accumulate_cells rect st :
  accumulate rect st = for_ (rect_cells rect) increment st.
Proof. destruct rect as [[[x y] w] h]. apply for_nested. Qed.

(** ** The accumulation *)

Section accumulation.
Import GridSpec.

Lemma inside_shape {A} (g g' : Grid.t A) pos :
  Grid.width g' = Grid.width g → Grid.height g' = Grid.height g →
  Grid.inside g' pos = Grid.inside g pos.
Proof. unfold Grid.inside. by intros -> ->. Qed.

Lemma grows_refl (delta : Z * Z → Z) g :
  (∀ q, delta q = 0) → grows delta g g.
Proof.
  intros Hd. split; try done.
  intros q v ->. rewrite Hd. f_equal. lia.
Qed.

Lemma grows_trans d1 d2 d g1 g2 g3 :
  grows d1 g1 g2 → grows d2 g2 g3 → (∀ q, d q = d1 q + d2 q) →
  grows d g1 g3.
Proof.
  intros [Hw1 Hh1 Hwf1 Hc1] [Hw2 Hh2 Hwf2 Hc2] Hd. split.
  - congruence.
  - congruence.
  - auto.
  - intros q v Hq. rewrite (Hc2 _ _ (Hc1 _ _ Hq)), Hd. f_equal. lia.
Qed.

Lemma grows_inside d g g' pos :
  grows d g g' → Grid.inside g' pos = Grid.inside g pos.
Proof. intros [Hw Hh _ _]. by apply inside_shape. Qed.

(** [fabric[pos] += 1] on a cell of the grid. *)
Lemma increment_inside st pos :
  wf (fabric st) → Grid.inside (fabric st) pos = true →
  ∃ g', increment pos st = (Ok tt, mkState g' (claims st) (stdout st)) ∧
        grows (λ q, if decide (q = pos) then 1 else 0) (fabric st) g'.
Proof.
  intros Hwf Hin.
  destruct (getitem_inside _ _ Hwf Hin) as [v Hv].
  destruct (setitem_inside _ _ (v + 1) Hwf Hin) as (g' & Hset & Hget & Hframe).
  exists g'. split.
  - unfold increment, bind, fabric_get, fabric_set. by rewrite Hv, Hset.
  - destruct (setitem_shape _ _ _ _ Hset) as (Hw & Hh & Hwf').
    split; try done.
    intros q u Hq. destruct (decide (q = pos)) as [->|Hne].
    + rewrite Hget. congruence.
    + rewrite Hframe by done. rewrite Hq. f_equal. lia.
Qed.

(** [fabric[pos] += 1] outside the grid raises, and changes nothing. *)
Lemma increment_outside st pos :
  Grid.inside (fabric st) pos = false →
  increment pos st = (Raise IndexError, st).
Proof.
  intros Hout. unfold increment, bind, fabric_get.
  by rewrite getitem_outside.
Qed.

Lemma for_increment ps : ∀ st,
  wf (fabric st) → Forall (λ p, Grid.inside (fabric st) p = true) ps →
  NoDup ps →
  ∃ g', for_ ps increment st = (Ok tt, mkState g' (claims st) (stdout st)) ∧
        grows (λ q, if decide (q ∈ ps) then 1 else 0) (fabric st) g'.
Proof.
  induction ps as [|p ps IH]; intros st Hwf Hin Hnd.
  - exists (fabric st). split; [by destruct st|].
    apply grows_refl. intros q.
    by rewrite decide_False by apply not_elem_of_nil.
  - apply Forall_cons in Hin as [Hp Hin]. apply NoDup_cons in Hnd as [Hnp Hnd].
    destruct (increment_inside st p Hwf Hp) as (g1 & Hinc & Hg1).
    destruct (IH (mkState g1 (claims st) (stdout st))) as (g2 & Hfor & Hg2);
      simpl.
    + by apply Hg1.
    + eapply Forall_impl; [exact Hin|]. intros q Hq. simpl in *.
      by rewrite (grows_inside _ _ _ _ Hg1).
    + done.
    + exists g2. split.
      * simpl. rewrite (seq_Ok _ _ _ _ _ Hinc). exact Hfor.
      * eapply grows_trans; [exact Hg1|exact Hg2|].
        intros q. simpl. destruct (decide (q = p)) as [->|Hne].
        -- rewrite decide_True by apply list_elem_of_here.
           by rewrite decide_False.
        -- destruct (decide (q ∈ ps)).
           ++ rewrite decide_True by by apply list_elem_of_further. done.
           ++ rewrite decide_False; [done|]. by intros [?|?]%elem_of_cons.
Qed.

Lemma elem_of_rect_cells rect pos :
  pos ∈ rect_cells rect ↔ covers rect pos = true.
Proof.
  destruct rect as [[[x y] w] h], pos as [i j].
  unfold rect_cells, covers, range.
  rewrite list_elem_of_bind. setoid_rewrite list_elem_of_bind.
  setoid_rewrite list_elem_of_singleton. setoid_rewrite elem_of_seqZ.
  rewrite !andb_true_iff. simpl. split.
  - intros (i' & (j' & [= -> ->] & ?) & ?). lia.
  - intros ?. exists i. split; [|lia]. exists j. split; [done|lia].
Qed.

Lemma NoDup_rect_cells rect : NoDup (rect_cells rect).
Proof.
  destruct rect as [[[x y] w] h]. unfold rect_cells, range.
  apply NoDup_bind; [| |apply NoDup_seqZ].
  - intros i1 i2 p _ _ (j1 & ->%list_elem_of_singleton & _)%list_elem_of_bind
      (j2 & [= -> _]%list_elem_of_singleton & _)%list_elem_of_bind. done.
  - intros i _. apply NoDup_bind; [| |apply NoDup_seqZ].
    + intros j1 j2 p _ _ ->%list_elem_of_singleton [= ->]%list_elem_of_singleton.
      done.
    + intros j _. apply NoDup_singleton.
Qed.

Lemma in_fabric_bounds x y w h :
  0 ≤ x → 0 ≤ y → x + w ≤ width → y + h ≤ width → in_fabric (x, y, w, h).
Proof.
  intros ???? [i j]. unfold covers. rewrite !andb_true_iff. simpl. lia.
Qed.

Lemma fabric_ok_init : fabric_ok init.
Proof. split; [|done]. by apply new_wf. Qed.

Lemma fabric_ok_grows d st g' :
  fabric_ok st → grows d (fabric st) g' →
  fabric_ok (mkState g' (claims st) (stdout st)).
Proof.
  intros (Hwf & Hw & Hh) [Hw' Hh' Hwf' _]. unfold fabric_ok. simpl.
  split_and!; [auto|congruence..].
Qed.

Lemma in_fabric_inside st rect :
  fabric_ok st → in_fabric rect →
  Forall (λ p, Grid.inside (fabric st) p = true) (rect_cells rect).
Proof.
  intros (_ & Hw & Hh) Hin. apply Forall_forall. intros p Hp.
  apply elem_of_rect_cells, Hin in Hp. apply inside_iff. by rewrite Hw, Hh.
Qed.

Lemma covering_cons c cs pos :
  covering (c :: cs) pos = (if covers c.2 pos then 1 else 0) + covering cs pos.
Proof. unfold covering. simpl. destruct (covers c.2 pos); simpl; lia. Qed.

(** The loops of a claim inside the grid add one to each of its cells. *)
Lemma accumulate_in_fabric st rect :
  fabric_ok st → in_fabric rect →
  ∃ g', accumulate rect st = (Ok tt, mkState g' (claims st) (stdout st)) ∧
        grows (λ q, if covers rect q then 1 else 0) (fabric st) g'.
Proof.
  intros Hok Hin. rewrite accumulate_cells.
  destruct (for_increment (rect_cells rect) st) as (g' & Hfor & Hg).
  - apply Hok.
  - by apply in_fabric_inside.
  - apply NoDup_rect_cells.
  - exists g'. split; [done|].
    eapply grows_trans; [exact Hg|by apply grows_refl|].
    intros q. simpl. destruct (covers rect q) eqn:Hc.
    + rewrite decide_True by by apply elem_of_rect_cells. done.
    + rewrite decide_False; [done|]. rewrite elem_of_rect_cells. congruence.
Qed.

Lemma process_line_claim line st :
  process_line line st
  = match parse_claim line with
    | Ok c =>
        accumulate c.2
          (mkState (fabric st) (dict_set c.1 c.2 (claims st)) (stdout st))
    | Raise e => (Raise e, st)
    end.
Proof.
  unfold process_line, parse_claim, bind, lift.
  by destruct (parse_line line) as [[[[[req x] y] w] h]|e].
Qed.

Lemma process_line_in_fabric st line c :
  parse_claim line = Ok c → fabric_ok st → in_fabric c.2 →
  ∃ g', process_line line st
        = (Ok tt, mkState g' (dict_set c.1 c.2 (claims st)) (stdout st)) ∧
        grows (λ q, if covers c.2 q then 1 else 0) (fabric st) g'.
Proof.
  intros Hparse Hok Hin.
  pose (st1 := mkState (fabric st) (dict_set c.1 c.2 (claims st)) (stdout st)).
  destruct (accumulate_in_fabric st1 c.2) as (g' & Hacc & Hg); [done..|].
  exists g'. split; [|done].
  by rewrite process_line_claim, Hparse.
Qed.

(** Reading a file whose lines are claims inside the grid. *)
Lemma read_file_in_fabric lines : ∀ cs st,
  Forall2 (λ line c, parse_claim line = Ok c) lines cs →
  Forall (λ c, in_fabric c.2) cs → fabric_ok st →
  ∃ g', read_file lines st
        = (Ok tt, mkState g' (dict_of cs (claims st)) (stdout st)) ∧
        grows (covering cs) (fabric st) g'.
Proof.
  induction lines as [|line lines IH]; intros cs st Hparse Hin Hok.
  - apply Forall2_nil_inv_l in Hparse as ->. exists (fabric st).
    split; [by destruct st|]. by apply grows_refl.
  - apply Forall2_cons_inv_l in Hparse as (c & cs' & Hc & Hparse & ->).
    apply Forall_cons in Hin as [Hinc Hin].
    destruct (process_line_in_fabric st line c) as (g1 & Hline & Hg1); [done..|].
    destruct (IH cs' (mkState g1 (dict_set c.1 c.2 (claims st)) (stdout st)))
      as (g2 & Hrest & Hg2); [done..| |].
    { apply (fabric_ok_grows _ (mkState (fabric st) _ (stdout st)) g1 Hok Hg1). }
    exists g2. split.
    + unfold read_file in *. simpl. rewrite (seq_Ok _ _ _ _ _ Hline). exact Hrest.
    + eapply grows_trans; [exact Hg1|exact Hg2|].
      intros q. apply covering_cons.
Qed.

(** A run of the loops that ends without an exception only touched cells
    of the grid. *)
Lemma for_increment_Ok ps : ∀ st st',
  GridSpec.wf (fabric st) → for_ ps increment st = (Ok tt, st') →
  Forall (λ p, Grid.inside (fabric st) p = true) ps.
Proof.
  induction ps as [|p ps IH]; intros st st' Hwf Hfor; [constructor|].
  destruct (Grid.inside (fabric st) p) eqn:Hp.
  - destruct (increment_inside st p Hwf Hp) as (g1 & Hinc & Hg1).
    simpl in Hfor. rewrite (seq_Ok _ _ _ _ _ Hinc) in Hfor.
    apply IH in Hfor; [|by apply Hg1]. simpl in Hfor.
    constructor; [done|].
    eapply Forall_impl; [exact Hfor|]. intros q Hq. simpl in Hq.
    by rewrite <-(grows_inside _ _ _ _ Hg1).
  - simpl in Hfor.
    by rewrite (seq_Raise _ _ _ _ _ (increment_outside st p Hp)) in Hfor.
Qed.

Lemma accumulate_Ok st st' rect :
  fabric_ok st → accumulate rect st = (Ok tt, st') → in_fabric rect.
Proof.
  intros Hok Hacc. rewrite accumulate_cells in Hacc.
  apply for_increment_Ok in Hacc; [|apply Hok].
  intros pos Hpos. apply elem_of_rect_cells in Hpos.
  rewrite Forall_forall in Hacc. apply Hacc, inside_iff in Hpos.
  destruct Hok as (_ & Hw & Hh). by rewrite Hw, Hh in Hpos.
Qed.

(** A file is read to its end exactly when each line is a claim inside the
    grid. *)
Lemma read_file_Ok lines : ∀ st st',
  fabric_ok st → read_file lines st = (Ok tt, st') →
  ∃ cs, Forall2 (λ line c, parse_claim line = Ok c) lines cs ∧
        Forall (λ c, in_fabric c.2) cs.
Proof.
  induction lines as [|line lines IH]; intros st st' Hok Hread.
  - exists []. by split.
  - unfold read_file in Hread. simpl in Hread.
    destruct (parse_claim line) as [c|e] eqn:Hparse.
    + pose (st1 := mkState (fabric st) (dict_set c.1 c.2 (claims st)) (stdout st)).
      assert (process_line line st = accumulate c.2 st1) as Hline.
      { by rewrite process_line_claim, Hparse. }
      destruct (accumulate c.2 st1) as [[[]|e] st2] eqn:Hacc.
      * rewrite (seq_Ok _ _ _ _ _ Hline) in Hread.
        pose proof (accumulate_Ok st1 st2 c.2 Hok Hacc) as Hin.
        destruct (accumulate_in_fabric st1 c.2 Hok Hin) as (g' & Hacc' & Hg).
        rewrite Hacc in Hacc'. injection Hacc' as ->.
        apply IH in Hread as (cs & Hcs & Hins).
        -- exists (c :: cs). split; by constructor.
        -- apply (fabric_ok_grows _ st1 g' Hok Hg).
      * by rewrite (seq_Raise _ _ _ _ _ Hline) in Hread.
    + assert (process_line line st = (Raise e, st)) as Hline.
      { by rewrite process_line_claim, Hparse. }
      by rewrite (seq_Raise _ _ _ _ _ Hline) in Hread.
Qed.

End accumulation.

(** ** The parser *)

Section parsing.

Lemma first_success_Some {A B} (f : A → option B) l b :
  first_success f l = Some b → ∃ a, a ∈ l ∧ f a = Some b.
Proof.
  induction l as [|a l IH]; simpl; [done|].
  destruct (f a) as [b'|] eqn:Hfa.
  - intros [= ->]. exists a. split; [left|done].
  - intros (a' & Ha' & Hf)%IH. exists a'. split; [by right|done].
Qed.

Lemma digit_run_take s : ∀ k,
  (k ≤ digit_run s)%nat →
  length (take k s) = k ∧ Forall (λ c, is_digit c = true) (take k s).
Proof.
  induction s as [|c s IH]; intros k Hk; simpl in Hk.
  - assert (k = 0%nat) as -> by lia. by split.
  - destruct k as [|k]; [by split|].
    destruct (is_digit c) eqn:Hc; [|lia].
    destruct (IH k) as [Hlen Hall]; [lia|].
    simpl. split; [by rewrite Hlen|by constructor].
Qed.

Lemma digit_run_app d rest :
  Forall (λ c, is_digit c = true) d → no_leading_digit rest →
  digit_run (d ++ rest) = length d.
Proof.
  intros Hd Hrest. induction Hd as [|c d Hc _ IH]; simpl.
  - destruct rest as [|c rest]; [done|]. simpl in *. by rewrite Hrest.
  - by rewrite Hc, IH.
Qed.

Lemma digit_run_drop s : no_leading_digit (drop (digit_run s) s).
Proof.
  induction s as [|c s IH]; simpl; [done|].
  destruct (is_digit c) eqn:Hc; simpl; done.
Qed.

(** A match is an instance of the expression, its groups are numbers. *)
Lemma match_here_sound re : ∀ s gs,
  match_here re s = Some gs →
  ∃ m rest, instance_of re gs = Some m ∧ s = m ++ rest ∧ Forall digits gs.
Proof.
  induction re as [|[c|] re IH]; intros s gs; simpl.
  - intros [= <-]. by exists [], s.
  - destruct s as [|c' s]; [done|].
    destruct (Ascii.eqb_spec c c') as [<-|]; [|done].
    intros (m & rest & -> & -> & Hgs)%IH. by exists (c :: m), rest.
  - intros (k & Hk & Hmatch)%first_success_Some.
    apply elem_of_reverse, elem_of_seq in Hk.
    destruct (match_here re (drop k s)) as [gs'|] eqn:Hrest; [|done].
    injection Hmatch as <-.
    apply IH in Hrest as (m & rest & -> & Hs & Hgs).
    destruct (digit_run_take s k) as [Hlen Hall]; [lia|].
    exists (take k s ++ m), rest. split_and!; [done| |].
    + by rewrite <-(assoc_L (++)), <-Hs, take_drop.
    + constructor; [|done]. split; [|done].
      intros Hnil. rewrite Hnil in Hlen. simpl in Hlen. lia.
Qed.

(** An instance of a delimited expression is matched, with its groups,
    when the text after it does not go on with a digit. *)
Lemma match_here_complete re : ∀ gs m rest,
  delimited re = true → instance_of re gs = Some m → Forall digits gs →
  no_leading_digit rest →
  match_here re (m ++ rest) = Some gs.
Proof.
  induction re as [|[c|] re IH]; intros gs m rest Hdel Hinst Hgs Hrest;
    simpl in *.
  - by destruct gs.
  - destruct (instance_of re gs) as [m'|] eqn:Hm'; [|done].
    injection Hinst as <-. simpl. rewrite Ascii.eqb_refl.
    by apply IH.
  - destruct gs as [|g gs]; [done|].
    destruct (instance_of re gs) as [m'|] eqn:Hm'; [|done].
    injection Hinst as <-.
    apply andb_true_iff in Hdel as [Hnext Hdel].
    apply Forall_cons in Hgs as [[Hne Hg] Hgs].
    assert (no_leading_digit (m' ++ rest)) as Hlead.
    { destruct re as [|[c|] re]; [| |done].
      - destruct gs; [|done]. by injection Hm' as <-.
      - simpl in Hm'. destruct (instance_of re gs); [|done].
        injection Hm' as <-. simpl. by apply negb_true_iff. }
    rewrite <-(assoc_L (++)), digit_run_app by done.
    destruct (length g) as [|n] eqn:Hlen; [by destruct g|].
    rewrite seq_S, reverse_snoc. simpl.
    replace (S n) with (length g + 0)%nat by lia.
    rewrite drop_app_add, take_app_add, take_0, drop_0, (right_id_L [] (++)).
    by rewrite (IH gs m' rest).
Qed.

Lemma delimited_pattern : delimited pattern = true.
Proof. reflexivity. Qed.

Lemma instance_of_pattern id x y w h :
  instance_of pattern [id; x; y; w; h] = Some (claim_text id x y w h).
Proof.
  unfold claim_text, pattern. simpl. by rewrite (right_id_L [] (++)).
Qed.

Lemma instance_of_pattern_inv gs m :
  instance_of pattern gs = Some m →
  ∃ id x y w h, gs = [id; x; y; w; h] ∧ m = claim_text id x y w h.
Proof.
  destruct gs as [|id [|x [|y [|w [|h [|]]]]]]; try done.
  rewrite instance_of_pattern. intros [= <-]. by exists id, x, y, w, h.
Qed.

Lemma match_here_pattern s gs :
  match_here pattern s = Some gs →
  ∃ id x y w h rest,
    gs = [id; x; y; w; h] ∧ s = claim_text id x y w h ++ rest ∧
    digits id ∧ digits x ∧ digits y ∧ digits w ∧ digits h.
Proof.
  intros (m & rest & Hinst & -> & Hgs)%match_here_sound.
  apply instance_of_pattern_inv in Hinst as (id & x & y & w & h & -> & ->).
  exists id, x, y, w, h, rest.
  by repeat (apply Forall_cons in Hgs as [? Hgs]).
Qed.

Lemma match_here_claim id x y w h rest :
  digits id → digits x → digits y → digits w → digits h →
  no_leading_digit rest →
  match_here pattern (claim_text id x y w h ++ rest) = Some [id; x; y; w; h].
Proof.
  intros. apply match_here_complete; try done.
  - apply instance_of_pattern.
  - repeat (apply List.Forall_cons; [done|]). apply List.Forall_nil.
Qed.

Lemma starts_with_claim_match s :
  starts_with_claim s ↔ is_Some (match_here pattern s).
Proof.
  split.
  - intros (id & x & y & w & h & rest & Hid & Hx & Hy & Hw & Hh & ->).
    exists [id; x; y; w; h ++ take (digit_run rest) rest].
    rewrite <-(take_drop (digit_run rest) rest) at 1.
    replace (claim_text id x y w h ++ take (digit_run rest) rest
               ++ drop (digit_run rest) rest)
      with (claim_text id x y w (h ++ take (digit_run rest) rest)
              ++ drop (digit_run rest) rest).
    + apply match_here_claim; try done; [|apply digit_run_drop].
      destruct Hh as [Hne Hh]. split; [by destruct h|].
      apply Forall_app. split; [done|]. by apply digit_run_take.
    + unfold claim_text. by rewrite <-!(assoc_L (++)).
  - intros [gs Hgs].
    apply match_here_pattern in Hgs
      as (id & x & y & w & h & rest & _ & -> & ? & ? & ? & ? & ?).
    by exists id, x, y, w, h, rest.
Qed.

Lemma search_Some re : ∀ s gs,
  search re s = Some gs ↔
  ∃ before s',
    s = before ++ s' ∧ match_here re s' = Some gs ∧
    ∀ b t, s = b ++ t → (length b < length before)%nat →
           match_here re t = None.
Proof.
  induction s as [|c s IH]; intros gs; simpl.
  - destruct (match_here re []) as [gs'|] eqn:Hm.
    + split.
      * intros [= <-]. exists [], []. split_and!; [done..|]. simpl. lia.
      * intros (before & s' & Hs & Hgs & _).
        symmetry in Hs. apply app_eq_nil in Hs as [-> ->]. congruence.
    + split; [done|]. intros (before & s' & Hs & Hgs & _).
      symmetry in Hs. apply app_eq_nil in Hs as [-> ->]. congruence.
  - destruct (match_here re (c :: s)) as [gs'|] eqn:Hm.
    + split.
      * intros [= <-]. exists [], (c :: s). split_and!; [done..|]. simpl. lia.
      * intros (before & s' & Hs & Hgs & Hleft).
        destruct before as [|c' before].
        -- simpl in Hs. subst s'. congruence.
        -- rewrite (Hleft [] (c :: s)) in Hm; [done..|simpl; lia].
    + rewrite IH. split.
      * intros (before & s' & -> & Hgs & Hleft).
        exists (c :: before), s'. split_and!; [done..|].
        intros [|c' b] t Hbt Hlen.
        -- simpl in Hbt. by subst t.
        -- injection Hbt as <- Hbt. apply (Hleft b t Hbt). simpl in Hlen. lia.
      * intros (before & s' & Hs & Hgs & Hleft).
        destruct before as [|c' before].
        -- simpl in Hs. subst s'. congruence.
        -- injection Hs as <- ->. exists before, s'. split_and!; [done..|].
           intros b t Hbt Hlen. apply (Hleft (c :: b) t).
           ++ simpl. by rewrite Hbt.
           ++ simpl. lia.
Qed.

Lemma search_None re s :
  search re s = None ↔ ∀ b t, s = b ++ t → match_here re t = None.
Proof.
  split.
  - induction s as [|c s IH]; simpl.
    + destruct (match_here re []) eqn:Hm; [done|]. intros _ b t Hs.
      symmetry in Hs. by apply app_eq_nil in Hs as [-> ->].
    + destruct (match_here re (c :: s)) eqn:Hm; [done|]. intros Hs [|c' b] t Hbt.
      * simpl in Hbt. by subst t.
      * injection Hbt as <- Hbt. by apply (IH Hs b t).
  - intros Hall. destruct (search re s) as [gs|] eqn:Hs; [|done].
    apply search_Some in Hs as (before & s' & -> & Hgs & _).
    by rewrite (Hall before s') in Hgs.
Qed.

Lemma fold_decimal d : ∀ acc,
  fold_left (λ n c, 10 * n + digit_value c) d acc
  = acc * 10 ^ Z.of_nat (length d) + decimal d.
Proof.
  induction d as [|c d IH]; intros acc; simpl length; simpl fold_left;
    simpl decimal.
  - simpl. lia.
  - rewrite IH, Nat2Z.inj_succ, Z.pow_succ_r by lia. lia.
Qed.

Lemma int_digits d :
  digits d →
  int d = if max_str_digits <? Z.of_nat (length d) then Raise ValueError
          else Ok (decimal d).
Proof.
  intros [Hne Hd]. unfold int.
  assert (forallb is_digit d = true) as ->.
  { apply forallb_forall. intros c Hc%list_elem_of_In.
    by apply (proj1 (Forall_forall _ _) Hd). }
  destruct d as [|c d]; [done|]. simpl negb. simpl andb. cbv iota.
  by rewrite fold_decimal.
Qed.

Lemma int_within_limit d : digits d → within_limit d → int d = Ok (decimal d).
Proof.
  intros Hd Hlen. rewrite int_digits by done.
  by destruct (Z.ltb_spec max_str_digits (Z.of_nat (length d)));
    [unfold within_limit in Hlen; lia|].
Qed.

Lemma int_beyond_limit d :
  digits d → ¬ within_limit d → int d = Raise ValueError.
Proof.
  intros Hd Hlen. rewrite int_digits by done.
  by destruct (Z.ltb_spec max_str_digits (Z.of_nat (length d)));
    [|unfold within_limit in Hlen; lia].
Qed.

Global Instance within_limit_dec d : Decision (within_limit d).
Proof. unfold within_limit. apply _. Defined.

(** [map(int, groups)] on groups of digits: the numbers of the groups, or
    the [ValueError] of a group beyond the limit. *)
Lemma map_int_digits gs :
  Forall digits gs →
  (Forall within_limit gs ∧ map_int gs = Ok (decimal <$> gs)) ∨
  (¬ Forall within_limit gs ∧ map_int gs = Raise ValueError).
Proof.
  induction 1 as [|g gs Hg _ IH]; [left; by split|].
  simpl. destruct (decide (within_limit g)) as [Hlen|Hlen].
  - rewrite (int_within_limit g Hg Hlen).
    destruct IH as [[Hall ->]|[Hnot ->]].
    + left. split; [by constructor|done].
    + right. split; [|done]. by intros [_ ?]%Forall_cons.
  - rewrite (int_beyond_limit g Hg Hlen). right. split; [|done].
    by intros [? _]%Forall_cons.
Qed.

Lemma parse_line_search line id x y w h :
  search pattern line = Some [id; x; y; w; h] →
  digits id → digits x → digits y → digits w → digits h →
  (Forall within_limit [id; x; y; w; h] ∧
   parse_line line
   = Ok (decimal id, decimal x, decimal y, decimal w, decimal h)) ∨
  (¬ Forall within_limit [id; x; y; w; h] ∧
   parse_line line = Raise ValueError).
Proof.
  intros Hs Hid Hx Hy Hw Hh. unfold parse_line. rewrite Hs.
  destruct (map_int_digits [id; x; y; w; h]) as [[Hall ->]|[Hnot ->]].
  - repeat (apply List.Forall_cons; [done|]). apply List.Forall_nil.
  - by left.
  - by right.
Qed.

(** The three ways in which the parsing of a line ends. *)
Lemma parse_line_cases line :
  (¬ contains_claim line ∧ parse_line line = Raise AttributeError) ∨
  ∃ before id x y w h rest,
    line = before ++ claim_text id x y w h ++ rest ∧
    digits id ∧ digits x ∧ digits y ∧ digits w ∧ digits h ∧
    ((Forall within_limit [id; x; y; w; h] ∧
      parse_line line
      = Ok (decimal id, decimal x, decimal y, decimal w, decimal h)) ∨
     (¬ Forall within_limit [id; x; y; w; h] ∧
      parse_line line = Raise ValueError)).
Proof.
  destruct (search pattern line) as [gs|] eqn:Hs.
  - right. pose proof Hs as Hs'.
    apply search_Some in Hs' as (before & s' & Hline & Hgs & _).
    apply match_here_pattern in Hgs
      as (id & x & y & w & h & rest & -> & -> & Hid & Hx & Hy & Hw & Hh).
    exists before, id, x, y, w, h, rest. split_and!; try done.
    by apply parse_line_search.
  - left. split.
    + intros (before & s' & -> & [gs Hgs]%starts_with_claim_match).
      rewrite search_None in Hs. by rewrite (Hs before s') in Hgs.
    + unfold parse_line. by rewrite Hs.
Qed.

(** What the parser returns are the fields of a claim of the line. *)
Lemma parse_line_Ok line c :
  parse_line line = Ok c →
  ∃ before id x y w h rest,
    line = before ++ claim_text id x y w h ++ rest ∧
    digits id ∧ digits x ∧ digits y ∧ digits w ∧ digits h ∧
    c = (decimal id, decimal x, decimal y, decimal w, decimal h).
Proof.
  intros Hparse.
  destruct (parse_line_cases line)
    as [[_ Hraise]|(before & id & x & y & w & h & rest & Hline & Hid & Hx & Hy
                      & Hw & Hh & [[_ Hok]|[_ Hraise]])];
    [congruence| |congruence].
  rewrite Hparse in Hok. injection Hok as ->.
  by exists before, id, x, y, w, h, rest.
Qed.

(** A line without a claim raises the [AttributeError] of [None.groups()],
    and no other line does. *)
Lemma parse_line_AttributeError line :
  parse_line line = Raise AttributeError ↔ ¬ contains_claim line.
Proof.
  destruct (parse_line_cases line)
    as [[Hnot Hraise]|(before & id & x & y & w & h & rest & Hline & Hid & Hx
                         & Hy & Hw & Hh & Hcases)].
  - by split.
  - split.
    + destruct Hcases as [[_ ->]|[_ ->]]; done.
    + intros []. exists before, (claim_text id x y w h ++ rest).
      split; [done|]. by exists id, x, y, w, h, rest.
Qed.

End parsing.

(** ** The dictionary of claims *)

Section dictionary.
Implicit Types (d cs : list (Z * Rect)).

Lemma dict_set_fresh k v d : k ∉ d.*1 → dict_set k v d = d ++ [(k, v)].
Proof.
  induction d as [|[k' v'] d IH]; simpl; [done|].
  intros Hk. apply not_elem_of_cons in Hk as [Hne Hk].
  destruct (Z.eqb_spec k k'); [done|]. by rewrite IH.
Qed.

Lemma dict_set_keys k v d :
  (dict_set k v d).*1 = if decide (k ∈ d.*1) then d.*1 else d.*1 ++ [k].
Proof.
  induction d as [|[k' v'] d IH].
  - by rewrite decide_False by apply not_elem_of_nil.
  - simpl dict_set. rewrite !fmap_cons. simpl fst.
    destruct (Z.eqb_spec k k') as [->|Hne].
    + by rewrite decide_True by left.
    + rewrite fmap_cons, IH. simpl fst. destruct (decide (k ∈ d.*1)).
      * by rewrite decide_True by by right.
      * rewrite decide_False; [done|]. by intros [?|?]%elem_of_cons.
Qed.

Lemma dict_set_NoDup k v d : NoDup d.*1 → NoDup (dict_set k v d).*1.
Proof.
  intros Hd. rewrite dict_set_keys. destruct (decide (k ∈ d.*1)); [done|].
  apply NoDup_app. split_and!; [done| |apply NoDup_singleton].
  intros k' Hk' ->%list_elem_of_singleton. done.
Qed.

Lemma elem_of_dict_set k v d k' v' :
  NoDup d.*1 →
  (k', v') ∈ dict_set k v d ↔
  (k' = k ∧ v' = v) ∨ (k' ≠ k ∧ (k', v') ∈ d).
Proof.
  induction d as [|[k0 v0] d IH]; simpl; intros Hd.
  - rewrite list_elem_of_singleton. split; [intros [= -> ->]; by left|].
    intros [[-> ->]|[_ []%not_elem_of_nil]]. done.
  - apply NoDup_cons in Hd as [Hk0 Hd].
    destruct (Z.eqb_spec k k0) as [<-|Hne].
    + rewrite !elem_of_cons. split.
      * intros [[= -> ->]|Hin]; [by left|]. right. split; [|by right].
        intros ->. apply Hk0. by apply (list_elem_of_fmap_2 fst) in Hin.
      * intros [[-> ->]|[Hne [[= -> ->]|Hin]]]; [by left|done|by right].
    + rewrite !elem_of_cons, IH by done. split.
      * intros [[= -> ->]|[[-> ->]|[??]]]; [right|by left|right]; split; auto.
      * intros [[-> ->]|[? [[= -> ->]|?]]]; [right; by left|by left|].
        right. by right.
Qed.

Lemma dict_of_NoDup cs : ∀ d, NoDup d.*1 → NoDup (dict_of cs d).*1.
Proof.
  induction cs as [|c cs IH]; intros d Hd; [done|].
  apply IH. by apply dict_set_NoDup.
Qed.

(** Claims with ids of their own are kept in the order of the file. *)
Lemma dict_of_distinct cs : ∀ d, NoDup (d ++ cs).*1 → dict_of cs d = d ++ cs.
Proof.
  induction cs as [|[k v] cs IH]; intros d Hd; simpl.
  - by rewrite (right_id_L [] (++)).
  - unfold dict_of in *. simpl. rewrite dict_set_fresh.
    + rewrite IH; [by rewrite <-(assoc_L (++))|].
      by rewrite <-(assoc_L (++)).
    + rewrite fmap_app in Hd. apply NoDup_app in Hd as (_ & Hd & _).
      intros Hk. apply (Hd k Hk). left.
Qed.

Lemma find_app {A} (f : A → bool) (l1 l2 : list A) :
  List.find f (l1 ++ l2)
  = match List.find f l1 with Some a => Some a | None => List.find f l2 end.
Proof. induction l1 as [|a l1 IH]; simpl; [done|]. by destruct (f a). Qed.

Lemma last_rect_cons req c cs :
  last_rect req (c :: cs)
  = match last_rect req cs with
    | Some rect => Some rect
    | None => if c.1 =? req then Some c.2 else None
    end.
Proof.
  unfold last_rect. rewrite reverse_cons, find_app.
  destruct (List.find _ (reverse cs)); [done|]. simpl.
  by destruct (c.1 =? req).
Qed.

(** An id of the dictionary maps to the rectangle of its last line. *)
Lemma elem_of_dict_of cs : ∀ d req rect,
  NoDup d.*1 →
  (req, rect) ∈ dict_of cs d ↔
  last_rect req cs = Some rect ∨ (last_rect req cs = None ∧ (req, rect) ∈ d).
Proof.
  induction cs as [|[k v] cs IH]; intros d req rect Hd.
  - unfold last_rect. simpl. naive_solver.
  - change (dict_of ((k, v) :: cs) d) with (dict_of cs (dict_set k v d)).
    rewrite IH by by apply dict_set_NoDup.
    rewrite last_rect_cons, elem_of_dict_set by done. simpl.
    destruct (last_rect req cs) as [r|]; [naive_solver|].
    destruct (Z.eqb_spec k req) as [->|Hne]; naive_solver.
Qed.

End dictionary.

(** ** Part one *)

Section part_one.
Import GridSpec.

Lemma sum_ones {A} (l : list A) : ∀ acc,
  fold_left Z.add (map (λ _, 1) l) acc = acc + Z.of_nat (length l).
Proof.
  induction l as [|a l IH]; intros acc; simpl fold_left; simpl length.
  - lia.
  - rewrite IH. lia.
Qed.

Lemma filter_fmap_length {A B} (f : B → bool) (g : A → B) (l : list A) :
  length (List.filter f (g <$> l)) = length (List.filter (λ a, f (g a)) l).
Proof.
  induction l as [|a l IH]; [done|].
  rewrite fmap_cons. simpl List.filter.
  destruct (f (g a)); simpl length; by rewrite IH.
Qed.

Lemma fmap_concat {A B} (f : A → B) (ls : list (list A)) :
  f <$> concat ls = concat (fmap (M:=list) f <$> ls).
Proof.
  induction ls as [|l ls IH]; simpl; [done|]. by rewrite fmap_app, IH.
Qed.

Lemma fmap_pairs {A B C} (f : A * B → C) (xs : list A) (ys : list B) :
  f <$> (j ← ys; i ← xs; [(i, j)])
  = concat ((λ j, (λ i, f (i, j)) <$> xs) <$> ys).
Proof.
  induction ys as [|j ys IH]; [done|].
  rewrite bind_cons, fmap_app, IH. simpl. f_equal.
  clear IH. induction xs as [|i xs IH]; [done|].
  rewrite bind_cons, fmap_app, IH. done.
Qed.

(** Iterating the grid yields the cells of its positions, row by row. *)
Lemma iter_positions {A} (g : Grid.t A) :
  wf g → Ok <$> Grid.iter g = Grid.getitem g <$> positions g.
Proof.
  intros [Hw Hh Hrows Hrow]. unfold Grid.iter, positions.
  rewrite fmap_concat, fmap_pairs. f_equal.
  apply list_eq. intros n. rewrite !list_lookup_fmap.
  destruct (decide (n < length (Grid.rows g))%nat) as [Hn|Hn].
  - destruct (lookup_lt_is_Some_2 _ _ Hn) as [row Hr]. rewrite Hr.
    rewrite lookup_seqZ_lt by lia. simpl. f_equal.
    pose proof (Forall_lookup_1 _ _ _ _ Hrow Hr) as Hlen. simpl in Hlen.
    apply list_eq. intros m. rewrite !list_lookup_fmap.
    destruct (decide (m < length row)%nat) as [Hm|Hm].
    + destruct (lookup_lt_is_Some_2 _ _ Hm) as [v Hv]. rewrite Hv.
      rewrite lookup_seqZ_lt by lia. simpl. f_equal.
      unfold Grid.getitem.
      assert (Grid.inside g (0 + Z.of_nat m, 0 + Z.of_nat n) = true) as ->.
      { apply inside_iff. simpl. lia. }
      simpl. replace (Z.to_nat (0 + Z.of_nat n)) with n by lia.
      replace (Z.to_nat (0 + Z.of_nat m)) with m by lia.
      by rewrite Hr, Hv.
    + rewrite lookup_ge_None_2 by lia.
      by rewrite lookup_seqZ_ge by lia.
  - rewrite lookup_ge_None_2 by lia.
    by rewrite lookup_seqZ_ge by lia.
Qed.

Lemma elem_of_positions {A} (g : Grid.t A) pos :
  pos ∈ positions g ↔ Grid.inside g pos = true.
Proof.
  destruct pos as [i j]. unfold positions.
  rewrite list_elem_of_bind, inside_iff. setoid_rewrite list_elem_of_bind.
  setoid_rewrite list_elem_of_singleton. setoid_rewrite elem_of_seqZ.
  simpl. split.
  - intros (j' & (i' & [= -> ->] & ?) & ?). lia.
  - intros ?. exists j. split; [|lia]. exists i. split; [done|lia].
Qed.

Lemma NoDup_positions {A} (g : Grid.t A) : NoDup (positions g).
Proof.
  unfold positions. apply NoDup_bind; [| |apply NoDup_seqZ].
  - intros j1 j2 p _ _ (i1 & ->%list_elem_of_singleton & _)%list_elem_of_bind
      (i2 & [= _ ->]%list_elem_of_singleton & _)%list_elem_of_bind. done.
  - intros j _. apply NoDup_bind; [| |apply NoDup_seqZ].
    + intros i1 i2 p _ _ ->%list_elem_of_singleton [= ->]%list_elem_of_singleton.
      done.
    + intros i _. apply NoDup_singleton.
Qed.

(** The sum over the cells of the grid counts the positions that hold
    more than 1. *)
Lemma overlap_count_overlaps g : wf g → overlap_count g = overlaps g.
Proof.
  intros Hwf. unfold overlap_count, overlaps. rewrite sum_ones. simpl.
  f_equal.
  rewrite <-(filter_fmap_length
    (λ r, match r with Ok v => 1 <? v | Raise _ => false end)
    (Grid.getitem g)).
  rewrite <-iter_positions by done.
  by rewrite filter_fmap_length.
Qed.

End part_one.

(** ** Part two *)

Section part_two.
Import GridSpec.

Lemma for_else_pure {A} (l : list A) (body : A → M flow) :
  (∀ a st, (body a st).2 = st) → ∀ st, (for_else l body st).2 = st.
Proof.
  intros Hbody. induction l as [|a l IH]; intros st; [done|].
  simpl. unfold bind. specialize (Hbody a st).
  destruct (body a st) as [[[]|e] st1]; simpl in *; subst; auto.
Qed.

Lemma bind_pure {A B} (m : M A) (k : A → M B) st :
  (m st).2 = st → (∀ a, (k a st).2 = st) → (bind m k st).2 = st.
Proof.
  unfold bind. intros Hm Hk.
  destruct (m st) as [[a|e] st1]; simpl in *; subst; auto.
Qed.

(** The loops over the cells of a claim change nothing of the state. *)
Lemma check_claim_pure rect st : (check_claim rect st).2 = st.
Proof.
  destruct rect as [[[x y] w] h]. unfold check_claim.
  apply for_else_pure. clear st. intros i st.
  apply bind_pure.
  - apply for_else_pure. clear st. intros j st.
    apply bind_pure; [done|]. intros v. by destruct (negb (v =? 1)).
  - by intros [].
Qed.

Lemma for_else_cons {A} (a : A) l (body : A → M flow) st :
  for_else (a :: l) body st
  = bind (body a) (λ f, match f with
                        | Break => ret false
                        | Continue => for_else l body
                        end) st.
Proof. done. Qed.

Lemma check_cells_inside (g : Grid.t Z) i : ∀ js st,
  fabric st = g → wf g →
  Forall (λ j, Grid.inside g (i, j) = true) js →
  for_else js (λ j,
    let* v := fabric_get (i, j) in
    if negb (v =? 1) then ret Break else ret Continue) st
  = (Ok (forallb (λ j, match Grid.getitem g (i, j) with
                       | Ok v => v =? 1
                       | Raise _ => false
                       end) js), st).
Proof.
  induction js as [|j js IH]; intros st Hg Hwf Hin; [done|].
  apply Forall_cons in Hin as [Hj Hin].
  destruct (getitem_inside g (i, j) Hwf Hj) as [v Hv].
  rewrite for_else_cons. simpl forallb. rewrite Hv.
  rewrite (bind_Ok _ _ _ (if v =? 1 then Continue else Break) st).
  - destruct (v =? 1); [by apply IH|done].
  - unfold bind, fabric_get. rewrite Hg, Hv. by destruct (v =? 1).
Qed.

Lemma forallb_pairs {A B} (f : A * B → bool) (xs : list A) (ys : list B) :
  forallb (λ i, forallb (λ j, f (i, j)) ys) xs
  = forallb f (i ← xs; j ← ys; [(i, j)]).
Proof.
  induction xs as [|i xs IH]; [done|].
  rewrite bind_cons, forallb_app, <-IH. simpl. f_equal.
  clear IH. induction ys as [|j ys IH]; [done|].
  rewrite bind_cons, forallb_app, <-IH. simpl. by rewrite andb_true_r.
Qed.

(** On a claim inside the grid the loops end without a [break] exactly
    when every cell of the claim holds 1. *)
Lemma check_claim_in_fabric st rect :
  fabric_ok st → in_fabric rect →
  check_claim rect st = (Ok (ones (fabric st) rect), st).
Proof.
  intros Hok Hin. pose proof (in_fabric_inside st rect Hok Hin) as Hcells.
  unfold ones. destruct rect as [[[x y] w] h]. unfold rect_cells in *.
  rewrite <-forallb_pairs. unfold check_claim.
  apply Forall_bind in Hcells.
  generalize dependent (range x (x + w)). intros xs Hxs.
  induction xs as [|i xs IH]; [done|].
  apply Forall_cons in Hxs as [Hi Hxs]. simpl in Hi.
  apply Forall_bind in Hi.
  assert (Forall (λ j, Grid.inside (fabric st) (i, j) = true)
            (range y (y + h))) as Hrow.
  { eapply Forall_impl; [exact Hi|]. intros j Hj. simpl in Hj.
    apply Forall_cons in Hj as [Hj _]. exact Hj. }
  pose proof (check_cells_inside (fabric st) i _ st eq_refl (proj1 Hok) Hrow)
    as Hinner.
  rewrite for_else_cons. simpl forallb.
  destruct (forallb _ (range y (y + h))) eqn:Hones.
  - rewrite (bind_Ok _ _ _ Continue st); [by apply IH|].
    by rewrite (bind_Ok _ _ _ _ _ Hinner).
  - rewrite (bind_Ok _ _ _ Break st); [done|].
    by rewrite (bind_Ok _ _ _ _ _ Hinner).
Qed.

Lemma ones_all_ones g rect : ones g rect = true ↔ all_ones g rect.
Proof.
  unfold ones, all_ones. rewrite forallb_forall. split.
  - intros Hall pos Hpos%elem_of_rect_cells%list_elem_of_In.
    specialize (Hall pos Hpos). destruct (Grid.getitem g pos); [|done].
    by apply Z.eqb_eq in Hall as ->.
  - intros Hall pos Hpos%list_elem_of_In%elem_of_rect_cells.
    rewrite (Hall pos Hpos). done.
Qed.

(** The claims before the first one whose cells all hold 1 are passed
    over, that claim is reported, and the claims after it are not looked
    at. *)
Lemma check_claims_first st before req rect after :
  fabric_ok st →
  Forall (λ c, in_fabric c.2 ∧ ones (fabric st) c.2 = false) before →
  in_fabric rect → ones (fabric st) rect = true →
  check_claims (before ++ (req, rect) :: after) st
  = print "Part two ID:" req st.
Proof.
  intros Hok Hbefore Hin Hones.
  induction Hbefore as [|[req' rect'] before [Hin' Hones'] _ IH];
    simpl in *.
  - unfold bind. by rewrite check_claim_in_fabric, Hones.
  - unfold bind. by rewrite check_claim_in_fabric, Hones'.
Qed.

Lemma check_claims_none st cs :
  fabric_ok st →
  Forall (λ c, in_fabric c.2 ∧ ones (fabric st) c.2 = false) cs →
  check_claims cs st = (Ok tt, st).
Proof.
  intros Hok Hcs.
  induction Hcs as [|[req rect] cs [Hin Hones] _ IH]; simpl in *; [done|].
  unfold bind. by rewrite check_claim_in_fabric, Hones.
Qed.

(** A list of claims has a first claim whose cells all hold 1, or none. *)
Lemma first_ones g (cs : list (Z * Rect)) :
  (∃ before req rect after,
     cs = before ++ (req, rect) :: after ∧
     Forall (λ c, ones g c.2 = false) before ∧ ones g rect = true)
  ∨ Forall (λ c, ones g c.2 = false) cs.
Proof.
  induction cs as [|[req rect] cs IH]; [by right|].
  destruct (ones g rect) eqn:Hones.
  - left. by exists [], req, rect, cs.
  - destruct IH as [(before & req' & rect' & after & -> & Hb & Hr)|Hall].
    + left. exists ((req, rect) :: before), req', rect', after.
      split_and!; [done| |done]. by constructor.
    + right. by constructor.
Qed.

Lemma check_claims_pure cs : ∀ st,
  fabric (check_claims cs st).2 = fabric st ∧
  claims (check_claims cs st).2 = claims st.
Proof.
  induction cs as [|[req rect] cs IH]; intros st; [done|].
  simpl. unfold bind. pose proof (check_claim_pure rect st) as Hpure.
  destruct (check_claim rect st) as [[[]|e] st1]; simpl in *; subst; auto.
Qed.

End part_two.

(** ** A run of [main] *)

Section run.
Import GridSpec.

Lemma for_frame {A B} (proj : state → B) (l : list A) body :
  (∀ a st, proj (body a st).2 = proj st) →
  ∀ st, proj (for_ l body st).2 = proj st.
Proof.
  intros Hbody. induction l as [|a l IH]; intros st; [done|].
  simpl. unfold_M. specialize (Hbody a st).
  destruct (body a st) as [[[]|e] st1]; simpl in *; [|done].
  by rewrite IH.
Qed.

Lemma increment_stdout pos st : stdout (increment pos st).2 = stdout st.
Proof.
  unfold increment, bind, fabric_get, fabric_set.
  destruct (Grid.getitem (fabric st) pos); [|done].
  by destruct (Grid.setitem (fabric st) pos _).
Qed.

(** Nothing is printed while the file is read. *)
Lemma read_file_stdout lines st : stdout (read_file lines st).2 = stdout st.
Proof.
  apply (for_frame stdout). clear. intros line st.
  rewrite process_line_claim. destruct (parse_claim line) as [c|e]; [|done].
  rewrite accumulate_cells.
  rewrite (for_frame stdout); [done|]. apply increment_stdout.
Qed.


Lemma main_read_Ok lines st :
  read_file lines init = (Ok tt, st) →
  main lines
  = part_two (mkState (fabric st) (claims st)
                (stdout st ++ [("Part one count:"%string,
                                overlap_count (fabric st))])).
Proof.
  intros Hread. unfold main. rewrite (seq_Ok _ _ _ _ _ Hread).
  by apply (seq_Ok part_one part_two st tt).
Qed.

Lemma main_read_Raise lines e st :
  read_file lines init = (Raise e, st) → main lines = (Raise e, st).
Proof. intros Hread. unfold main. by apply seq_Raise. Qed.

Lemma last_rect_elem req rect (cs : list (Z * Rect)) :
  last_rect req cs = Some rect → (req, rect) ∈ cs.
Proof.
  unfold last_rect. destruct (List.find _ (reverse cs)) as [[k v]|] eqn:Hf;
    [|done].
  intros [= <-]. apply find_some in Hf as [Hin Hk]. simpl in Hk.
  apply Z.eqb_eq in Hk as ->.
  apply elem_of_reverse. by apply list_elem_of_In.
Qed.

(** The state in which the reports run, when the file is read to its
    end. *)
Lemma read_file_init lines st :
  read_file lines init = (Ok tt, st) →
  ∃ cs, Forall2 (λ line c, parse_claim line = Ok c) lines cs ∧
        Forall (λ c, in_fabric c.2) cs ∧
        fabric_ok st ∧ claims st = dict_of cs [] ∧ stdout st = [] ∧
        ∀ pos, Grid.inside (fabric st) pos = true →
               Grid.getitem (fabric st) pos = Ok (covering cs pos).
Proof.
  intros Hread.
  destruct (read_file_Ok lines init st fabric_ok_init Hread) as (cs & Hcs & Hin).
  destruct (read_file_in_fabric lines cs init Hcs Hin fabric_ok_init)
    as (g' & Hread' & Hg).
  rewrite Hread in Hread'. injection Hread' as ->.
  exists cs. split_and!; try done.
  - apply (fabric_ok_grows _ init g' fabric_ok_init Hg).
  - simpl. intros pos Hpos.
    rewrite (grows_inside _ _ _ _ Hg) in Hpos.
    rewrite (grows_cell _ _ _ Hg pos 0); [done|].
    by apply (getitem_new width width 0).
Qed.

Lemma dict_of_in_fabric (cs : list (Z * Rect)) :
  Forall (λ c, in_fabric c.2) cs →
  Forall (λ c, in_fabric c.2) (dict_of cs []).
Proof.
  rewrite !Forall_forall. intros Hcs [req rect] Hin.
  apply elem_of_dict_of in Hin as [Hlast|[_ []%not_elem_of_nil]];
    [|apply NoDup_nil_2].
  by apply (Hcs (req, rect)), last_rect_elem.
Qed.

End run.

(** * The claims of the specification *)

(** ** The parser *)

(** C5.  A line that holds a claim [#<id> @ <x>,<y>: <w>x<h>]
    whose five fields have at most 4300 digits each parses to the five
    integers (id, x, y, w, h), in that order: the decimal values of the
    five fields.  When a field has more digits, [int] raises [ValueError].
    The search is not anchored, so the line may hold text before the claim
    (no claim begins earlier in the line) and after it (which does not
    continue the last field with a digit: a newline, or nothing). *)
Theorem parse_line_fields before id x y w h rest :
  digits id → digits x → digits y → digits w → digits h →
  no_leading_digit rest →
  (∀ b t, before ++ claim_text id x y w h ++ rest = b ++ t →
          (length b < length before)%nat → ¬ starts_with_claim t) →
  (Forall within_limit [id; x; y; w; h] →
   parse_line (before ++ claim_text id x y w h ++ rest)
   = Ok (decimal id, decimal x, decimal y, decimal w, decimal h)) ∧
  (¬ Forall within_limit [id; x; y; w; h] →
   parse_line (before ++ claim_text id x y w h ++ rest) = Raise ValueError).
Proof.
  intros Hid Hx Hy Hw Hh Hrest Hleft.
  assert (search pattern (before ++ claim_text id x y w h ++ rest)
          = Some [id; x; y; w; h]) as Hs.
  { apply search_Some. exists before, (claim_text id x y w h ++ rest).
    split_and!; [done|by apply match_here_claim|].
    intros b t Hbt Hlen. specialize (Hleft b t Hbt Hlen).
    rewrite starts_with_claim_match in Hleft.
    destruct (match_here pattern t); [|done]. destruct Hleft. by eexists. }
  destruct (parse_line_search _ id x y w h Hs Hid Hx Hy Hw Hh)
    as [[Hall ->]|[Hnot ->]]; by split.
Qed.


(** ** The accumulation *)

Lemma covering_none (cs : list (Z * Rect)) pos :
  (∀ c, c ∈ cs → covers c.2 pos = false) → covering cs pos = 0.
Proof.
  induction cs as [|c cs IH]; intros Hcs; [done|].
  rewrite covering_cons, (Hcs c) by left.
  rewrite IH; [done|]. intros c' Hc'. apply Hcs. by right.
Qed.

Lemma covering_nonneg (cs : list (Z * Rect)) pos : 0 ≤ covering cs pos.
Proof. unfold covering. lia. Qed.

Lemma inside_init st i j :
  fabric_ok st → 0 ≤ i < width → 0 ≤ j < width →
  Grid.inside (fabric st) (i, j) = true.
Proof.
  intros (_ & Hw & Hh) Hi Hj. apply inside_iff. by rewrite Hw, Hh.
Qed.

(** C2.  When the lines of the input are claims with ids of their own and
    rectangles inside the grid of 1000 by 1000, the file is read to its
    end, and then every cell of the grid holds the number of claims whose
    rectangle contains the cell: a number that is not negative, and 0 for
    a cell that no claim contains. *)
Theorem accumulation_counts_claims lines cs :
  Forall2 (λ line c, parse_claim line = Ok c) lines cs →
  NoDup cs.*1 →
  Forall (λ c, in_fabric c.2) cs →
  ∃ st, read_file lines init = (Ok tt, st) ∧ claims st = cs ∧
    ∀ i j, 0 ≤ i < 1000 → 0 ≤ j < 1000 →
      ∃ v, Grid.getitem (fabric st) (i, j) = Ok v ∧ 0 ≤ v ∧
           v = covering (claims st) (i, j) ∧
           ((∀ c, c ∈ claims st → covers c.2 (i, j) = false) → v = 0).
Proof.
  intros Hparse Hids Hin.
  destruct (read_file_in_fabric lines cs init Hparse Hin fabric_ok_init)
    as (g' & Hread & Hg).
  eexists. split; [exact Hread|]. simpl.
  rewrite (dict_of_distinct cs []) by done. split; [done|].
  intros i j Hi Hj. exists (covering cs (i, j)).
  split_and!; [|apply covering_nonneg|done|apply covering_none].
  rewrite (grows_cell _ _ _ Hg (i, j) 0); [done|].
  apply (getitem_new width width 0), (inside_init init); by try apply fabric_ok_init.
Qed.

(** C7.  Reading the same claims a second time, on the grid the first
    reading left, doubles every cell: the accumulation adds, it is not
    idempotent. *)
Theorem accumulate_twice_doubles lines cs :
  Forall2 (λ line c, parse_claim line = Ok c) lines cs →
  Forall (λ c, in_fabric c.2) cs →
  ∃ st1 st2,
    read_file lines init = (Ok tt, st1) ∧
    (read_file lines;; read_file lines) init = (Ok tt, st2) ∧
    ∀ i j, 0 ≤ i < 1000 → 0 ≤ j < 1000 →
      ∃ v, v = covering cs (i, j) ∧
           Grid.getitem (fabric st1) (i, j) = Ok v ∧
           Grid.getitem (fabric st2) (i, j) = Ok (2 * v).
Proof.
  intros Hparse Hin.
  destruct (read_file_in_fabric lines cs init Hparse Hin fabric_ok_init)
    as (g1 & Hread1 & Hg1).
  assert (fabric_ok (mkState g1 (dict_of cs (claims init)) (stdout init)))
    as Hok1 by exact (fabric_ok_grows _ init g1 fabric_ok_init Hg1).
  destruct (read_file_in_fabric lines cs _ Hparse Hin Hok1)
    as (g2 & Hread2 & Hg2).
  eexists _, _. split_and!.
  - exact Hread1.
  - rewrite (seq_Ok _ _ _ _ _ Hread1). exact Hread2.
  - simpl. intros i j Hi Hj. exists (covering cs (i, j)).
    assert (Grid.getitem g1 (i, j) = Ok (covering cs (i, j))) as H1.
    { rewrite (grows_cell _ _ _ Hg1 (i, j) 0); [done|].
      apply (getitem_new width width 0), (inside_init init);
        by try apply fabric_ok_init. }
    split_and!; [done..|].
    rewrite (grows_cell _ _ _ Hg2 (i, j) _ H1). f_equal. lia.
Qed.

(** C8.  On the grid of [main], a claim of width 1 and height 1 adds one to
    its cell and changes no other cell; and a claim whose right edge is the
    edge of the grid (x + w = 1000) is accumulated without an exception:
    each of its cells is a position of the grid. *)
Theorem boundary_claims st :
  fabric_ok st →
  (∀ x y, 0 ≤ x < 1000 → 0 ≤ y < 1000 →
     ∃ g' v,
       accumulate (x, y, 1, 1) st
       = (Ok tt, mkState g' (claims st) (stdout st)) ∧
       Grid.getitem (fabric st) (x, y) = Ok v ∧
       Grid.getitem g' (x, y) = Ok (v + 1) ∧
       ∀ pos, pos ≠ (x, y) → Grid.getitem g' pos = Grid.getitem (fabric st) pos)
  ∧
  (∀ x y w h, 0 ≤ x → 0 ≤ y → x + w = 1000 → y + h ≤ 1000 →
     (accumulate (x, y, w, h) st).1 = Ok tt ∧
     Forall (λ pos, Grid.inside (fabric st) pos = true)
       (rect_cells (x, y, w, h))).
Proof.
  intros Hok. split.
  - intros x y Hx Hy.
    assert (in_fabric (x, y, 1, 1)) as Hin.
    { apply in_fabric_bounds; unfold width; lia. }
    destruct (accumulate_in_fabric st _ Hok Hin) as (g' & Hacc & Hg).
    destruct (getitem_inside (fabric st) (x, y)) as [v Hv];
      [apply Hok|by apply inside_init|].
    exists g', v. split_and!; [done..| |].
    + rewrite (grows_cell _ _ _ Hg _ _ Hv). f_equal.
      assert (covers (x, y, 1, 1) (x, y) = true) as ->; [|done].
      unfold covers. simpl. rewrite !andb_true_iff. lia.
    + intros pos Hpos.
      destruct (Grid.inside (fabric st) pos) eqn:Hinside.
      * destruct (getitem_inside (fabric st) pos) as [u Hu];
          [apply Hok|done|].
        rewrite (grows_cell _ _ _ Hg _ _ Hu), Hu. f_equal.
        assert (covers (x, y, 1, 1) pos = false) as ->; [|lia].
        destruct pos as [i j]. unfold covers. simpl.
        apply not_true_is_false. rewrite !andb_true_iff.
        intros ?. apply Hpos. f_equal; lia.
      * rewrite (getitem_outside (fabric st)) by done.
        apply getitem_outside. by rewrite (grows_inside _ _ _ _ Hg).
  - intros x y w h Hx Hy Hw Hh.
    assert (in_fabric (x, y, w, h)) as Hin.
    { apply in_fabric_bounds; unfold width; lia. }
    destruct (accumulate_in_fabric st _ Hok Hin) as (g' & Hacc & Hg).
    split; [by rewrite Hacc|]. by apply in_fabric_inside.
Qed.

Lemma part_two_first st before req rect after :
  fabric_ok st → Forall (λ c, in_fabric c.2) (claims st) →
  claims st = before ++ (req, rect) :: after →
  Forall (λ c, ¬ all_ones (fabric st) c.2) before →
  all_ones (fabric st) rect →
  part_two st
  = (Ok tt, mkState (fabric st) (claims st)
              (stdout st ++ [("Part two ID:"%string, req)])).
Proof.
  intros Hok Hin Hclaims Hbefore Hrect.
  rewrite Hclaims in Hin. apply Forall_app in Hin as [Hin1 Hin2].
  apply Forall_cons in Hin2 as [Hin2 _].
  unfold part_two. rewrite Hclaims at 1.
  rewrite (check_claims_first st before req rect after); try done.
  - apply Forall_and. split; [done|].
    eapply Forall_impl; [exact Hbefore|]. intros c Hc.
    apply not_true_is_false. by rewrite ones_all_ones.
  - by apply ones_all_ones.
Qed.

Lemma part_two_none st :
  fabric_ok st → Forall (λ c, in_fabric c.2) (claims st) →
  Forall (λ c, ¬ all_ones (fabric st) c.2) (claims st) →
  part_two st = (Ok tt, st).
Proof.
  intros Hok Hin Hnone. unfold part_two. apply check_claims_none; [done|].
  apply Forall_and. split; [done|].
  eapply Forall_impl; [exact Hnone|]. intros c Hc.
  apply not_true_is_false. by rewrite ones_all_ones.
Qed.

Lemma part_two_printed st req :
  fabric_ok st → Forall (λ c, in_fabric c.2) (claims st) →
  stdout (part_two st).2 = stdout st ++ [("Part two ID:"%string, req)] →
  ∃ before rect after,
    claims st = before ++ (req, rect) :: after ∧
    Forall (λ c, ¬ all_ones (fabric st) c.2) before ∧
    all_ones (fabric st) rect.
Proof.
  intros Hok Hin Hout.
  destruct (first_ones (fabric st) (claims st))
    as [(before & req' & rect & after & Hclaims & Hbefore & Hrect)|Hnone].
  - assert (Forall (λ c, ¬ all_ones (fabric st) c.2) before) as Hnot.
    { eapply Forall_impl; [exact Hbefore|]. intros c Hc.
      rewrite <-ones_all_ones. simpl in Hc. by rewrite Hc. }
    apply ones_all_ones in Hrect.
    rewrite (part_two_first st before req' rect after) in Hout by done.
    simpl in Hout. apply app_inv_head in Hout. injection Hout as ->.
    by exists before, rect, after.
  - rewrite part_two_none in Hout; [|done..|].
    + simpl in Hout. rewrite <-(right_id_L [] (++) (stdout st)) in Hout at 1.
      by apply app_inv_head in Hout.
    + eapply Forall_impl; [exact Hnone|]. intros c Hc.
      rewrite <-ones_all_ones. simpl in Hc. by rewrite Hc.
Qed.

(** C10.  Whatever the ids of the lines (claims inside the grid): the
    dictionary holds each id once, with the rectangle of the last line
    that carries the id, and the grid counts the rectangles of all the
    lines, those that the dictionary has dropped as well.  Part two
    decides on the rectangles of the dictionary: it prints the id of the
    first entry whose rectangle, the last one of its id, has all its
    cells at 1; it prints nothing when no last rectangle has; and an id
    that it prints has its last rectangle all at 1. *)
Theorem duplicate_ids lines cs :
  Forall2 (λ line c, parse_claim line = Ok c) lines cs →
  Forall (λ c, in_fabric c.2) cs →
  ∃ st, read_file lines init = (Ok tt, st) ∧
    NoDup (claims st).*1 ∧
    (∀ req rect, (req, rect) ∈ claims st ↔ last_rect req cs = Some rect) ∧
    (∀ i j, 0 ≤ i < 1000 → 0 ≤ j < 1000 →
       Grid.getitem (fabric st) (i, j) = Ok (covering cs (i, j))) ∧
    (∀ before req rect after,
       claims st = before ++ (req, rect) :: after →
       Forall (λ c, ¬ all_ones (fabric st) c.2) before →
       all_ones (fabric st) rect →
       last_rect req cs = Some rect ∧
       part_two st
       = (Ok tt, mkState (fabric st) (claims st)
                   (stdout st ++ [("Part two ID:"%string, req)]))) ∧
    ((∀ req rect, last_rect req cs = Some rect →
                  ¬ all_ones (fabric st) rect) →
     part_two st = (Ok tt, st)) ∧
    (∀ req,
       stdout (part_two st).2 = stdout st ++ [("Part two ID:"%string, req)] →
       ∃ rect, last_rect req cs = Some rect ∧ all_ones (fabric st) rect).
Proof.
  intros Hparse Hin.
  destruct (read_file_in_fabric lines cs init Hparse Hin fabric_ok_init)
    as (g' & Hread & Hg).
  set (st := mkState g' (dict_of cs (claims init)) (stdout init)) in *.
  assert (fabric_ok st) as Hok
    by exact (fabric_ok_grows _ init g' fabric_ok_init Hg).
  assert (Forall (λ c, in_fabric c.2) (claims st)) as Hinst
    by by apply dict_of_in_fabric.
  assert (∀ req rect,
            (req, rect) ∈ claims st ↔ last_rect req cs = Some rect) as Hmem.
  { intros req rect. simpl. rewrite elem_of_dict_of by apply NoDup_nil_2.
    split; [|by left]. by intros [?|[_ []%not_elem_of_nil]]. }
  exists st. split_and!; [done| |done| | | |].
  - apply dict_of_NoDup, NoDup_nil_2.
  - intros i j Hi Hj. simpl.
    rewrite (grows_cell _ _ _ Hg (i, j) 0); [done|].
    apply (getitem_new width width 0), (inside_init init);
      by try apply fabric_ok_init.
  - intros before req rect after Hclaims Hbefore Hrect. split.
    + apply Hmem. rewrite Hclaims. apply elem_of_app. right. left.
    + by apply (part_two_first st before req rect after).
  - intros Hnone. apply part_two_none; [done..|].
    apply Forall_forall. intros [req rect] Hc. simpl.
    by apply (Hnone req), Hmem.
  - intros req Hout.
    destruct (part_two_printed st req Hok Hinst Hout)
      as (before & rect & after & Hclaims & _ & Hrect).
    exists rect. split; [|done].
    apply Hmem. rewrite Hclaims. apply elem_of_app. right. left.
Qed.

(** ** The reports *)

Lemma check_claims_stdout cs : ∀ st,
  ∃ rest, stdout (check_claims cs st).2 = stdout st ++ rest.
Proof.
  induction cs as [|[req rect] cs IH]; intros st.
  - exists []. simpl. by rewrite (right_id_L [] (++)).
  - simpl. unfold bind. pose proof (check_claim_pure rect st) as Hpure.
    destruct (check_claim rect st) as [[[]|e] st1]; simpl in *; subst st1.
    + by eexists.
    + apply IH.
    + exists []. by rewrite (right_id_L [] (++)).
Qed.

Lemma not_all_ones g rect : ¬ all_ones g rect → ones g rect = false.
Proof.
  intros Hnot. apply not_true_is_false. by rewrite ones_all_ones.
Qed.

(** The state in which part two runs. *)
Lemma main_reports lines st :
  read_file lines init = (Ok tt, st) →
  fabric_ok st ∧ Forall (λ c, in_fabric c.2) (claims st) ∧
  main lines
  = part_two (mkState (fabric st) (claims st)
                [("Part one count:"%string, overlaps (fabric st))]).
Proof.
  intros Hread.
  destruct (read_file_init lines st Hread)
    as (cs & _ & Hin & Hok & Hclaims & Hout & _).
  split_and!; [done|rewrite Hclaims; by apply dict_of_in_fabric|].
  rewrite (main_read_Ok lines st Hread), Hout.
  by rewrite overlap_count_overlaps by apply Hok.
Qed.

Lemma read_file_pair lines :
  (read_file lines init).1 = Ok tt →
  read_file lines init = (Ok tt, (read_file lines init).2).
Proof. destruct (read_file lines init) as [r st]. simpl. by intros ->. Qed.

(** C3.  Part one prints the number of positions of the grid whose cell
    holds more than 1.  It finds it by one scan of the grid, which yields
    the cell of every position once.  In a run of [main] this is the first
    line printed, and on the example of three claims the number is 4. *)
Theorem part_one_counts_overlaps :
  (∀ st, GridSpec.wf (fabric st) →
     part_one st
     = (Ok tt, mkState (fabric st) (claims st)
                 (stdout st ++ [("Part one count:"%string,
                                 overlaps (fabric st))])))
  ∧
  (∀ g : Grid.t Z, GridSpec.wf g →
     Ok <$> Grid.iter g = Grid.getitem g <$> GridSpec.positions g ∧
     NoDup (GridSpec.positions g) ∧
     ∀ pos, pos ∈ GridSpec.positions g ↔ Grid.inside g pos = true)
  ∧
  (∀ lines, (read_file lines init).1 = Ok tt →
     ∃ rest, stdout (main lines).2
             = ("Part one count:"%string,
                overlaps (fabric (read_file lines init).2)) :: rest)
  ∧
  (∃ rest, stdout (main example).2 = ("Part one count:"%string, 4) :: rest).
Proof.
  split_and!.
  - intros st Hwf. unfold part_one, print.
    by rewrite overlap_count_overlaps.
  - intros g Hwf. split_and!;
      [by apply iter_positions|apply NoDup_positions|apply elem_of_positions].
  - intros lines Hread%read_file_pair.
    destruct (main_reports lines _ Hread) as (_ & _ & ->).
    unfold part_two. simpl.
    destruct (check_claims_stdout (claims (read_file lines init).2)
      (mkState (fabric (read_file lines init).2)
         (claims (read_file lines init).2)
         [("Part one count:"%string,
           overlaps (fabric (read_file lines init).2))])) as [rest Hrest].
    exists rest. exact Hrest.
  - exists [("Part two ID:"%string, 3)]. vm_compute. reflexivity.
Qed.

(** C1.  Part two goes through the claims in the order of the dictionary
    and prints the id of the first claim all of whose cells hold exactly 1,
    then returns: the claims before it have a cell that does not hold 1,
    and the claims after it are not looked at, whatever they are.
    Conversely an id that part two prints is the id of that first claim.
    In a run of [main] on claims with ids of their own the order is that of
    the lines of the file and the id follows the line of part one; on the
    example of three claims the id is 3. *)
Theorem part_two_first_claim_of_ones :
  (∀ st before req rect after,
     fabric_ok st →
     claims st = before ++ (req, rect) :: after →
     Forall (λ c, in_fabric c.2) before → in_fabric rect →
     Forall (λ c, ¬ all_ones (fabric st) c.2) before →
     all_ones (fabric st) rect →
     part_two st
     = (Ok tt, mkState (fabric st) (claims st)
                 (stdout st ++ [("Part two ID:"%string, req)])))
  ∧
  (∀ st req,
     fabric_ok st → Forall (λ c, in_fabric c.2) (claims st) →
     stdout (part_two st).2 = stdout st ++ [("Part two ID:"%string, req)] →
     ∃ before rect after,
       claims st = before ++ (req, rect) :: after ∧
       Forall (λ c, ¬ all_ones (fabric st) c.2) before ∧
       all_ones (fabric st) rect)
  ∧
  (∀ lines before req rect after,
     Forall2 (λ line c, parse_claim line = Ok c) lines
       (before ++ (req, rect) :: after) →
     NoDup (before ++ (req, rect) :: after).*1 →
     Forall (λ c, in_fabric c.2) (before ++ (req, rect) :: after) →
     Forall (λ c, ¬ all_ones (fabric (read_file lines init).2) c.2) before →
     all_ones (fabric (read_file lines init).2) rect →
     (main lines).1 = Ok tt ∧
     stdout (main lines).2
     = [("Part one count:"%string, overlaps (fabric (read_file lines init).2));
        ("Part two ID:"%string, req)])
  ∧
  ((main example).1 = Ok tt ∧
   stdout (main example).2
   = [("Part one count:"%string, 4); ("Part two ID:"%string, 3)]).
Proof.
  assert (∀ st before req rect after,
     fabric_ok st →
     claims st = before ++ (req, rect) :: after →
     Forall (λ c, in_fabric c.2) before → in_fabric rect →
     Forall (λ c, ¬ all_ones (fabric st) c.2) before →
     all_ones (fabric st) rect →
     part_two st
     = (Ok tt, mkState (fabric st) (claims st)
                 (stdout st ++ [("Part two ID:"%string, req)]))) as Hfirst.
  { intros st before req rect after Hok Hclaims Hin Hrect Hbefore Hones.
    unfold part_two. rewrite Hclaims at 1.
    rewrite (check_claims_first st before req rect after); try done.
    - apply Forall_and. split; [done|].
      eapply Forall_impl; [exact Hbefore|]. intros c. apply not_all_ones.
    - by apply ones_all_ones. }
  split_and!.
  - exact Hfirst.
  - intros st req Hok Hin Hout.
    destruct (first_ones (fabric st) (claims st))
      as [(before & req' & rect & after & Hclaims & Hbefore & Hrect)|Hnone].
    + rewrite Hclaims in Hin. apply Forall_app in Hin as [Hin1 Hin2].
      apply Forall_cons in Hin2 as [Hin2 _].
      assert (Forall (λ c, ¬ all_ones (fabric st) c.2) before) as Hnot.
      { eapply Forall_impl; [exact Hbefore|]. intros c Hc.
        rewrite <-ones_all_ones. simpl in Hc. by rewrite Hc. }
      apply ones_all_ones in Hrect.
      rewrite (Hfirst st before req' rect after) in Hout by done.
      simpl in Hout. apply app_inv_head in Hout. injection Hout as ->.
      by exists before, rect, after.
    + unfold part_two in Hout. rewrite check_claims_none in Hout; [|done|].
      * simpl in Hout. rewrite <-(right_id_L [] (++) (stdout st)) in Hout at 1.
        by apply app_inv_head in Hout.
      * apply Forall_and. by split.
  - intros lines before req rect after Hparse Hids Hin.
    destruct (read_file_in_fabric lines _ init Hparse Hin fabric_ok_init)
      as (g' & Hread & Hg).
    rewrite Hread. simpl. intros Hbefore Hrect.
    destruct (main_reports lines _ Hread) as (Hok & _ & ->). simpl in *.
    rewrite (dict_of_distinct _ []) in * by done.
    apply Forall_app in Hin as [Hin1 Hin2].
    apply Forall_cons in Hin2 as [Hin2 _].
    by rewrite (Hfirst _ before req rect after).
  - vm_compute. reflexivity.
  - vm_compute. reflexivity.
Qed.

(** C6.  When no claim has all of its cells at exactly 1, part two prints
    nothing and raises nothing: [main] returns, and its output is the line
    of part one alone. *)
Theorem no_claim_of_ones lines :
  (read_file lines init).1 = Ok tt →
  (∀ req rect, (req, rect) ∈ claims (read_file lines init).2 →
               ¬ all_ones (fabric (read_file lines init).2) rect) →
  (main lines).1 = Ok tt ∧
  stdout (main lines).2
  = [("Part one count:"%string, overlaps (fabric (read_file lines init).2))].
Proof.
  intros Hread%read_file_pair Hnone.
  destruct (main_reports lines _ Hread) as (Hok & Hin & ->).
  unfold part_two. simpl. rewrite check_claims_none; [done..|].
  apply Forall_and. split; [done|].
  apply Forall_forall. intros [req rect] Hc. apply not_all_ones.
  by apply (Hnone req).
Qed.

(** C9.  The two reports only read the grid: part one and part two leave
    the fabric as it is, and so do the assignment to [claims] and [print].
    Reading a line changes the fabric by increments of cells and by nothing
    else. *)
Theorem reports_leave_fabric st :
  fabric (part_one st).2 = fabric st ∧
  fabric (part_two st).2 = fabric st ∧
  (∀ rect, (check_claim rect st).2 = st) ∧
  (∀ req rect, fabric (claims_set req rect st).2 = fabric st) ∧
  (∀ label n, fabric (print label n st).2 = fabric st) ∧
  (∀ line, ∃ cells st1,
     fabric st1 = fabric st ∧
     (process_line line st).2 = (for_ cells increment st1).2).
Proof.
  split_and!; try done.
  - apply check_claims_pure.
  - intros rect. apply check_claim_pure.
  - intros line. rewrite process_line_claim.
    destruct (parse_claim line) as [c|e].
    + eexists (rect_cells c.2), _. split; [|by rewrite accumulate_cells]. done.
    + by exists [], st.
Qed.

(** * The theorems at concrete inputs *)

Ltac in_fabric_list :=
  repeat (apply List.Forall_cons;
          [apply in_fabric_bounds; unfold width; lia|]);
  apply List.Forall_nil.

Lemma within_limit_short (d : text) :
  (length d ≤ 4300)%nat → within_limit d.
Proof. unfold within_limit, max_str_digits. lia. Qed.

Ltac within_limit_list :=
  repeat (apply List.Forall_cons;
          [apply within_limit_short; simpl; lia|]);
  apply List.Forall_nil.

(** The line [#123 @ 3,2: 5x4] with its newline. *)
Lemma parse_line_fields_witness :
  parse_line ([] ++ claim_text (T "123") (T "3") (T "2") (T "5") (T "4")
                ++ [newline])
  = Ok (decimal (T "123"), decimal (T "3"), decimal (T "2"),
        decimal (T "5"), decimal (T "4")).
Proof.
  apply parse_line_fields.
  - split; [done|]. repeat constructor.
  - split; [done|]. repeat constructor.
  - split; [done|]. repeat constructor.
  - split; [done|]. repeat constructor.
  - split; [done|]. repeat constructor.
  - reflexivity.
  - intros b t _ Hlen. simpl in Hlen. lia.
  - within_limit_list.
Defined.

Lemma digits_long_id : digits long_id.
Proof. split; [done|]. by apply Forall_replicate. Qed.

(** A claim whose id has 4301 digits: the line is a claim, and the parser
    does not return its fields, [int] raises and the run ends there. *)
Lemma parse_line_fields_counterexample :
  claim_line (claim_text long_id (T "1") (T "3") (T "4") (T "4")) ∧
  parse_line (claim_text long_id (T "1") (T "3") (T "4") (T "4"))
  = Raise ValueError ∧
  (main [claim_text long_id (T "1") (T "3") (T "4") (T "4")]).1
  = Raise ValueError.
Proof.
  split_and!.
  - exists long_id, (T "1"), (T "3"), (T "4"), (T "4").
    split_and!; [apply digits_long_id|..|by left];
      (split; [done|]; repeat constructor).
  - vm_compute. reflexivity.
  - vm_compute. reflexivity.
Qed.

Example parse_line_newline :
  parse_line (T "#123 @ 3,2: 5x4" ++ [newline]) = Ok (123, 3, 2, 5, 4).
Proof. vm_compute. reflexivity. Qed.



Lemma example_parses :
  Forall2 (λ line c, parse_claim line = Ok c) example example_claims.
Proof. repeat constructor. Qed.

Lemma example_in_fabric : Forall (λ c, in_fabric c.2) example_claims.
Proof.
  in_fabric_list.
Qed.

Lemma accumulation_counts_claims_witness :
  ∃ st, read_file example init = (Ok tt, st) ∧ claims st = example_claims ∧
    ∀ i j, 0 ≤ i < 1000 → 0 ≤ j < 1000 →
      ∃ v, Grid.getitem (fabric st) (i, j) = Ok v ∧ 0 ≤ v ∧
           v = covering (claims st) (i, j) ∧
           ((∀ c, c ∈ claims st → covers c.2 (i, j) = false) → v = 0).
Proof.
  apply accumulation_counts_claims.
  - repeat constructor.
  - apply (bool_decide_unpack _). vm_compute. exact I.
  - in_fabric_list.
Defined.

Lemma accumulate_twice_doubles_witness :
  ∃ st1 st2,
    read_file example init = (Ok tt, st1) ∧
    (read_file example;; read_file example) init = (Ok tt, st2) ∧
    ∀ i j, 0 ≤ i < 1000 → 0 ≤ j < 1000 →
      ∃ v, v = covering example_claims (i, j) ∧
           Grid.getitem (fabric st1) (i, j) = Ok v ∧
           Grid.getitem (fabric st2) (i, j) = Ok (2 * v).
Proof.
  apply accumulate_twice_doubles.
  - repeat constructor.
  - in_fabric_list.
Defined.

(** A claim of one cell in the last corner, and a claim of ten columns up
    to the right edge, over the whole height. *)
Lemma boundary_claims_witness :
  (∃ g' v,
     accumulate (999, 999, 1, 1) init
     = (Ok tt, mkState g' (claims init) (stdout init)) ∧
     Grid.getitem (fabric init) (999, 999) = Ok v ∧
     Grid.getitem g' (999, 999) = Ok (v + 1) ∧
     ∀ pos, pos ≠ (999, 999) →
            Grid.getitem g' pos = Grid.getitem (fabric init) pos)
  ∧
  ((accumulate (990, 0, 10, 1000) init).1 = Ok tt ∧
   Forall (λ pos, Grid.inside (fabric init) pos = true)
     (rect_cells (990, 0, 10, 1000))).
Proof.
  assert (fabric_ok init) as Hok.
  { split; [|by vm_compute]. split; [by vm_compute|by vm_compute|..].
    - vm_compute. reflexivity.
    - apply Forall_replicate. vm_compute. reflexivity. }
  destruct (boundary_claims init Hok) as [Hone Hedge]. split.
  - apply (Hone 999 999); lia.
  - apply (Hedge 990 0 10 1000); lia.
Defined.

Lemma duplicate_ids_witness :
  ∃ st, read_file twice init = (Ok tt, st) ∧
    NoDup (claims st).*1 ∧
    (∀ req rect,
       (req, rect) ∈ claims st ↔ last_rect req twice_claims = Some rect) ∧
    (∀ i j, 0 ≤ i < 1000 → 0 ≤ j < 1000 →
       Grid.getitem (fabric st) (i, j) = Ok (covering twice_claims (i, j))) ∧
    (∀ before req rect after,
       claims st = before ++ (req, rect) :: after →
       Forall (λ c, ¬ all_ones (fabric st) c.2) before →
       all_ones (fabric st) rect →
       last_rect req twice_claims = Some rect ∧
       part_two st
       = (Ok tt, mkState (fabric st) (claims st)
                   (stdout st ++ [("Part two ID:"%string, req)]))) ∧
    ((∀ req rect, last_rect req twice_claims = Some rect →
                  ¬ all_ones (fabric st) rect) →
     part_two st = (Ok tt, st)) ∧
    (∀ req,
       stdout (part_two st).2 = stdout st ++ [("Part two ID:"%string, req)] →
       ∃ rect, last_rect req twice_claims = Some rect ∧
               all_ones (fabric st) rect).
Proof.
  apply duplicate_ids.
  - repeat constructor.
  - in_fabric_list.
Defined.

(** What the run on these lines keeps and prints: the id 1 stays at the
    head of the dictionary, with its second rectangle, and part two
    reports it; the cell (0, 0) counts both rectangles that contain it. *)
Example twice_run :
  claims (main twice).2 = [(1, (5, 5, 1, 1)); (2, (0, 0, 1, 1))] ∧
  stdout (main twice).2
  = [("Part one count:"%string, 1); ("Part two ID:"%string, 1)] ∧
  Grid.getitem (fabric (main twice).2) (0, 0) = Ok 2.
Proof. vm_compute. by split_and!. Qed.

Lemma part_one_counts_overlaps_witness :
  ∃ rest, stdout (main example).2
          = ("Part one count:"%string,
             overlaps (fabric (read_file example init).2)) :: rest.
Proof.
  destruct part_one_counts_overlaps as (_ & _ & Hmain & _).
  apply (Hmain example). vm_compute. reflexivity.
Defined.

Lemma part_two_first_claim_of_ones_witness :
  (main example).1 = Ok tt ∧
  stdout (main example).2
  = [("Part one count:"%string, overlaps (fabric (read_file example init).2));
     ("Part two ID:"%string, 3)].
Proof.
  destruct part_two_first_claim_of_ones as (_ & _ & Hmain & _).
  apply (Hmain example [(1, (1, 3, 4, 4)); (2, (3, 1, 4, 4))] 3 (5, 5, 2, 2) []).
  - repeat constructor.
  - apply (bool_decide_unpack _). vm_compute. exact I.
  - in_fabric_list.
  - repeat constructor; intros Hones%ones_all_ones; vm_compute in Hones;
      discriminate.
  - apply ones_all_ones. vm_compute. reflexivity.
Defined.

Lemma no_claim_of_ones_witness :
  (main overlapping).1 = Ok tt ∧
  stdout (main overlapping).2
  = [("Part one count:"%string,
      overlaps (fabric (read_file overlapping init).2))].
Proof.
  apply no_claim_of_ones.
  - vm_compute. reflexivity.
  - intros req rect Hin.
    assert (claims (read_file overlapping init).2
            = [(1, (0, 0, 2, 2)); (2, (1, 1, 2, 2))]) as Hclaims
      by (vm_compute; reflexivity).
    rewrite Hclaims in Hin. clear Hclaims.
    apply elem_of_cons in Hin as [Hin|Hin].
    + injection Hin as -> ->. intros Hones%ones_all_ones.
      vm_compute in Hones. discriminate.
    + apply list_elem_of_singleton in Hin. injection Hin as -> ->.
      intros Hones%ones_all_ones. vm_compute in Hones. discriminate.
Defined.

(** * Further properties of [main] *)

(** ** The parser *)

Lemma parse_line_start id x y w h rest :
  digits id → digits x → digits y → digits w → digits h →
  Forall within_limit [id; x; y; w; h] →
  no_leading_digit rest →
  parse_line (claim_text id x y w h ++ rest)
  = Ok (decimal id, decimal x, decimal y, decimal w, decimal h).
Proof.
  intros Hid Hx Hy Hw Hh Hlen Hrest.
  assert (search pattern (claim_text id x y w h ++ rest)
          = Some [id; x; y; w; h]) as Hs.
  { apply search_Some. exists [], (claim_text id x y w h ++ rest).
    split_and!; [done|by apply match_here_claim|].
    intros b t _ Hb. simpl in Hb. lia. }
  by destruct (parse_line_search _ id x y w h Hs Hid Hx Hy Hw Hh)
    as [[_ ->]|[Hnot _]].
Qed.

Lemma length_claim_text id x y w h :
  length (claim_text id x y w h)
  = (8 + length id + length x + length y + length w + length h)%nat.
Proof. unfold claim_text. rewrite !length_app. simpl. lia. Qed.

(** The parser raises [AttributeError] exactly on the lines in which no
    claim occurs, whatever text the others hold before and after the
    claim.  Its only other exception is the [ValueError] of [int], which
    needs a field of more than 4300 digits, so that a line of at most 4300
    characters is accepted exactly when a claim occurs in it. *)
Theorem parse_line_accepts line :
  (parse_line line = Raise AttributeError ↔ ¬ contains_claim line) ∧
  (∀ e, parse_line line = Raise e → e = AttributeError ∨ e = ValueError) ∧
  (parse_line line = Raise ValueError → 4300 < Z.of_nat (length line)) ∧
  (Z.of_nat (length line) ≤ 4300 →
   contains_claim line ↔ ∃ t, parse_line line = Ok t).
Proof.
  assert (parse_line line = Raise ValueError → 4300 < Z.of_nat (length line))
    as Hlong.
  { intros Hraise.
    destruct (parse_line_cases line)
      as [[_ Hattr]|(before & id & x & y & w & h & rest & -> & _ & _ & _ & _
                       & _ & [[_ Hok]|[Hnot _]])]; [congruence..|].
    apply not_Forall_Exists in Hnot; [|apply _].
    rewrite !length_app, length_claim_text.
    unfold within_limit, max_str_digits in Hnot.
    repeat (apply Exists_cons in Hnot as [Hnot|Hnot]; [simpl in Hnot; lia|]).
    by apply Exists_nil in Hnot. }
  split_and!; [apply parse_line_AttributeError| |done|].
  - intros e He.
    destruct (parse_line_cases line)
      as [[_ Hattr]|(before & id & x & y & w & h & rest & _ & _ & _ & _ & _
                       & _ & [[_ Hok]|[_ Hval]])];
      [left|congruence|right]; congruence.
  - intros Hshort. split.
    + intros Hclaim. destruct (parse_line line) as [t|e] eqn:Hparse;
        [by exists t|].
      destruct (parse_line_cases line)
        as [[Hnot _]|(before & id & x & y & w & h & rest & _ & _ & _ & _ & _
                        & _ & [[_ Hok]|[_ Hval]])]; [done|congruence|].
      rewrite Hparse in Hval. injection Hval as ->.
      specialize (Hlong eq_refl). lia.
    + intros [t Ht].
      apply parse_line_Ok in Ht
        as (before & id & x & y & w & h & rest & -> & ? & ? & ? & ? & ? & _).
      exists before, (claim_text id x y w h ++ rest). split; [done|].
      by exists id, x, y, w, h, rest.
Qed.

Lemma digits_12 : digits (T "12").
Proof. split; [done|]. repeat constructor. Qed.

Lemma digits_one_char c : is_digit c = true → digits [c].
Proof. intros Hc. split; [done|]. by repeat constructor. Qed.

Lemma parse_line_accepts_witness : ∃ t, parse_line wrapped = Ok t.
Proof.
  destruct (parse_line_accepts wrapped) as (_ & _ & _ & Hshort).
  apply Hshort; [vm_compute; discriminate|].
  exists (T "claim "), (T "#12 @ 3,4: 5x6 (elf 7)"). split; [reflexivity|].
  exists (T "12"), (T "3"), (T "4"), (T "5"), (T "6"), (T " (elf 7)").
  split_and!; try (by apply digits_one_char); [apply digits_12|reflexivity].
Defined.

Lemma digit_value_range c : is_digit c = true → 0 ≤ digit_value c ≤ 9.
Proof.
  unfold is_digit, digit_value. rewrite andb_true_iff.
  intros [?%Nat.leb_le ?%Nat.leb_le]. lia.
Qed.

Lemma decimal_nonneg d : Forall (λ c, is_digit c = true) d → 0 ≤ decimal d.
Proof.
  induction 1 as [|c d Hc _ IH]; simpl; [done|].
  apply digit_value_range in Hc.
  assert (0 ≤ 10 ^ Z.of_nat (length d)) by (apply Z.pow_nonneg; lia). nia.
Qed.

(** The five numbers of a parsed line are never negative: the pattern
    has no sign. *)
Theorem parse_line_nonneg line req x y w h :
  parse_line line = Ok (req, x, y, w, h) →
  0 ≤ req ∧ 0 ≤ x ∧ 0 ≤ y ∧ 0 ≤ w ∧ 0 ≤ h.
Proof.
  intros (_ & id & dx & dy & dw & dh & _ & _ & [_ ?] & [_ ?] & [_ ?] & [_ ?]
            & [_ ?] & [= -> -> -> -> ->])%parse_line_Ok.
  split_and!; by apply decimal_nonneg.
Qed.

Lemma parse_line_nonneg_witness : 0 ≤ 12 ∧ 0 ≤ 3 ∧ 0 ≤ 4 ∧ 0 ≤ 5 ∧ 0 ≤ 6.
Proof.
  apply (parse_line_nonneg wrapped). vm_compute. reflexivity.
Defined.

Lemma decimal_zeros z d : zeros z → decimal (z ++ d) = decimal d.
Proof.
  induction 1 as [|c z -> _ IH]; [done|].
  change (decimal (("0"%char :: z) ++ d))
    with (digit_value "0" * 10 ^ Z.of_nat (length (z ++ d)) + decimal (z ++ d)).
  rewrite IH. change (digit_value "0") with 0. lia.
Qed.

Lemma digits_zeros z d : zeros z → digits d → digits (z ++ d).
Proof.
  intros Hz [Hne Hd]. split.
  - intros [_ ->]%app_eq_nil. done.
  - apply Forall_app. split; [|done].
    eapply Forall_impl; [exact Hz|]. by intros c ->.
Qed.

(** Zeros in front of a field do not change the number it parses to, so
    [#07] and [#7] are the same id; the fields with their zeros have at
    most 4300 digits. *)
Theorem parse_line_leading_zeros z1 z2 z3 z4 z5 id x y w h rest :
  zeros z1 → zeros z2 → zeros z3 → zeros z4 → zeros z5 →
  digits id → digits x → digits y → digits w → digits h →
  Forall within_limit [z1 ++ id; z2 ++ x; z3 ++ y; z4 ++ w; z5 ++ h] →
  no_leading_digit rest →
  parse_line (claim_text (z1 ++ id) (z2 ++ x) (z3 ++ y) (z4 ++ w) (z5 ++ h)
                ++ rest)
  = parse_line (claim_text id x y w h ++ rest).
Proof.
  intros Hz1 Hz2 Hz3 Hz4 Hz5 Hid Hx Hy Hw Hh Hlen Hrest.
  assert (Forall within_limit [id; x; y; w; h]) as Hlen'.
  { unfold within_limit in *.
    repeat (apply Forall_cons in Hlen as [? Hlen]).
    rewrite !length_app in *.
    repeat (apply List.Forall_cons; [lia|]). apply List.Forall_nil. }
  rewrite !parse_line_start by auto using digits_zeros.
  by rewrite !decimal_zeros.
Qed.

Lemma parse_line_leading_zeros_witness :
  parse_line (claim_text (T "00" ++ T "12") ([] ++ T "3") (T "0" ++ T "4")
                ([] ++ T "5") (T "000" ++ T "6") ++ [newline])
  = parse_line (claim_text (T "12") (T "3") (T "4") (T "5") (T "6")
                  ++ [newline]).
Proof.
  apply parse_line_leading_zeros;
    try (by apply digits_one_char); try apply digits_12;
    try reflexivity; try within_limit_list;
    unfold zeros; by repeat constructor.
Defined.

(** ** Claims without cells *)

Lemma range_empty a b : b ≤ a → range a b = [].
Proof. intros. unfold range. apply seqZ_nil. lia. Qed.

Lemma for_else_no_cells {A B} (xs : list A) (body : A → B → M flow) st :
  for_else xs (λ i,
    let* inner := for_else [] (body i) in
    if inner then ret Continue else ret Break) st
  = (Ok true, st).
Proof.
  induction xs as [|i xs IH]; [done|]. rewrite for_else_cons.
  by rewrite (bind_Ok _ _ _ Continue st).
Qed.

(** A claim of width 0 or of height 0, which the pattern accepts, has no
    cell: accumulating it reads and writes nothing, wherever it lies, and
    part two reports it as soon as it comes to it. *)
Theorem claim_without_cells st x y w h :
  w = 0 ∨ h = 0 →
  accumulate (x, y, w, h) st = (Ok tt, st) ∧
  check_claim (x, y, w, h) st = (Ok true, st) ∧
  ∀ req after,
    check_claims ((req, (x, y, w, h)) :: after) st
    = print "Part two ID:" req st.
Proof.
  intros Hempty.
  assert (check_claim (x, y, w, h) st = (Ok true, st)) as Hcheck.
  { unfold check_claim. destruct Hempty as [-> | ->].
    - by rewrite (range_empty x (x + 0)) by lia.
    - rewrite (range_empty y (y + 0)) by lia. apply for_else_no_cells. }
  split_and!; [|done|].
  - unfold accumulate. destruct Hempty as [-> | ->].
    + by rewrite (range_empty x (x + 0)) by lia.
    + rewrite (range_empty y (y + 0)) by lia.
      induction (range x (x + w)) as [|i xs IH]; [done|].
      simpl. unfold_M. exact IH.
  - intros req after. simpl. by rewrite (bind_Ok _ _ _ _ _ Hcheck).
Qed.

(** A claim of height 0 far outside the grid. *)
Lemma claim_without_cells_witness :
  accumulate (5000, 5000, 3, 0) init = (Ok tt, init) ∧
  check_claim (5000, 5000, 3, 0) init = (Ok true, init) ∧
  ∀ req after,
    check_claims ((req, (5000, 5000, 3, 0)) :: after) init
    = print "Part two ID:" req init.
Proof. apply claim_without_cells. right. reflexivity. Defined.

(** ** The reports never raise *)

(** What [main] returns when the file is read to its end. *)
Lemma main_returns lines st :
  read_file lines init = (Ok tt, st) →
  ∃ out,
    main lines = (Ok tt, mkState (fabric st) (claims st) out) ∧
    (out = [("Part one count:"%string, overlaps (fabric st))] ∨
     ∃ before req rect after,
       claims st = before ++ (req, rect) :: after ∧
       Forall (λ c, ones (fabric st) c.2 = false) before ∧
       ones (fabric st) rect = true ∧
       out = [("Part one count:"%string, overlaps (fabric st));
              ("Part two ID:"%string, req)]).
Proof.
  intros Hread. destruct (main_reports lines st Hread) as (Hok & Hin & ->).
  unfold part_two. simpl.
  destruct (first_ones (fabric st) (claims st))
    as [(before & req & rect & after & Hclaims & Hbefore & Hrect)|Hnone].
  - rewrite Hclaims in Hin. apply Forall_app in Hin as [Hin1 Hin2].
    apply Forall_cons in Hin2 as [Hin2 _].
    eexists. split; [|right; by exists before, req, rect, after].
    rewrite Hclaims.
    rewrite (check_claims_first _ before req rect after); try done.
    apply Forall_and. by split.
  - eexists. split; [|by left].
    rewrite check_claims_none; [done..|]. apply Forall_and. by split.
Qed.

(** The two reports never raise: a run of [main] ends as the reading of
    the file ends, and a run that ends with an exception has printed
    nothing and is in the state in which the reading stopped. *)
Theorem main_raises_only_reading lines :
  (main lines).1 = (read_file lines init).1 ∧
  ((main lines).1 ≠ Ok tt →
   main lines = read_file lines init ∧ stdout (main lines).2 = []).
Proof.
  pose proof (read_file_stdout lines init) as Hout.
  destruct (read_file lines init) as [[[]|e] st] eqn:Hread.
  - destruct (main_returns lines st Hread) as (out & -> & _). by split.
  - rewrite (main_read_Raise lines e st Hread). by split.
Qed.

(** The second line holds no claim. *)
Lemma main_raises_only_reading_witness :
  main [T "#1 @ 0,0: 1x1"; T "two"]
  = read_file [T "#1 @ 0,0: 1x1"; T "two"] init ∧
  stdout (main [T "#1 @ 0,0: 1x1"; T "two"]).2 = [].
Proof.
  apply main_raises_only_reading. vm_compute. discriminate.
Defined.

(** A run of [main] that returns has printed the line of part one and at
    most one line of part two; the id of that line is an id of the
    dictionary, and all the cells of its rectangle hold 1.  The fabric and
    the dictionary are those the reading left. *)
Theorem main_output lines :
  (main lines).1 = Ok tt →
  fabric (main lines).2 = fabric (read_file lines init).2 ∧
  claims (main lines).2 = claims (read_file lines init).2 ∧
  (stdout (main lines).2
   = [("Part one count:"%string, overlaps (fabric (main lines).2))] ∨
   ∃ req rect,
     (req, rect) ∈ claims (main lines).2 ∧
     all_ones (fabric (main lines).2) rect ∧
     stdout (main lines).2
     = [("Part one count:"%string, overlaps (fabric (main lines).2));
        ("Part two ID:"%string, req)]).
Proof.
  intros Hmain.
  destruct (read_file lines init) as [[[]|e] st] eqn:Hread.
  - destruct (main_returns lines st Hread) as (out & -> & Hout). simpl.
    split_and!; [done..|].
    destruct Hout as [->|(before & req & rect & after & Hc & _ & Hr & ->)].
    + by left.
    + right. exists req, rect. split_and!; [|by apply ones_all_ones|done].
      rewrite Hc. apply elem_of_app. right. left.
  - by rewrite (main_read_Raise lines e st Hread) in Hmain.
Qed.

Lemma main_output_witness :
  fabric (main example).2 = fabric (read_file example init).2 ∧
  claims (main example).2 = claims (read_file example init).2 ∧
  (stdout (main example).2
   = [("Part one count:"%string, overlaps (fabric (main example).2))] ∨
   ∃ req rect,
     (req, rect) ∈ claims (main example).2 ∧
     all_ones (fabric (main example).2) rect ∧
     stdout (main example).2
     = [("Part one count:"%string, overlaps (fabric (main example).2));
        ("Part two ID:"%string, req)]).
Proof. apply main_output. vm_compute. reflexivity. Defined.

(** ** What the two reports mean for the claims of the file *)

(** The state after the reading of claims inside the grid. *)
Lemma read_file_cells lines cs :
  Forall2 (λ line c, parse_claim line = Ok c) lines cs →
  Forall (λ c, in_fabric c.2) cs →
  ∃ st, read_file lines init = (Ok tt, st) ∧ fabric_ok st ∧
        claims st = dict_of cs [] ∧
        ∀ pos, Grid.inside (fabric st) pos = true →
               Grid.getitem (fabric st) pos = Ok (covering cs pos).
Proof.
  intros Hparse Hin.
  destruct (read_file_in_fabric lines cs init Hparse Hin fabric_ok_init)
    as (g' & Hread & Hg).
  eexists. split; [exact Hread|]. split_and!; [|done|].
  - apply (fabric_ok_grows _ init g' fabric_ok_init Hg).
  - simpl. intros pos Hpos. rewrite (grows_inside _ _ _ _ Hg) in Hpos.
    rewrite (grows_cell _ _ _ Hg pos 0); [done|].
    by apply (getitem_new width width 0).
Qed.

Lemma overlaps_shared_cells st cs :
  fabric_ok st →
  (∀ pos, Grid.inside (fabric st) pos = true →
          Grid.getitem (fabric st) pos = Ok (covering cs pos)) →
  overlaps (fabric st) = shared_cells cs.
Proof.
  intros (_ & Hw & Hh) Hcells. unfold overlaps, shared_cells. do 2 f_equal.
  assert (GridSpec.positions (fabric st) = all_positions) as Hpos.
  { unfold GridSpec.positions, all_positions. by rewrite Hw, Hh. }
  rewrite <-Hpos. apply filter_ext_in.
  intros pos Hin%list_elem_of_In%elem_of_positions. by rewrite Hcells.
Qed.

Lemma main_shared_cells lines cs :
  Forall2 (λ line c, parse_claim line = Ok c) lines cs →
  Forall (λ c, in_fabric c.2) cs →
  (main lines).1 = Ok tt ∧
  ∃ rest, stdout (main lines).2
          = ("Part one count:"%string, shared_cells cs) :: rest.
Proof.
  intros Hparse Hin.
  destruct (read_file_cells lines cs Hparse Hin)
    as (st & Hread & Hok & _ & Hcells).
  destruct (main_returns lines st Hread) as (out & -> & Hout).
  split; [done|]. simpl.
  rewrite <-(overlaps_shared_cells st cs Hok Hcells).
  destruct Hout as [->|(_ & req & _ & _ & _ & _ & _ & ->)]; by eexists.
Qed.

(** The number part one prints is the number of positions of the grid
    that lie in the rectangles of two or more lines of the file. *)
Theorem part_one_counts_shared_cells lines cs :
  Forall2 (λ line c, parse_claim line = Ok c) lines cs →
  Forall (λ c, in_fabric c.2) cs →
  (main lines).1 = Ok tt ∧
  ∃ rest, stdout (main lines).2
          = ("Part one count:"%string, shared_cells cs) :: rest.
Proof. apply main_shared_cells. Qed.

Lemma part_one_counts_shared_cells_witness :
  (main example).1 = Ok tt ∧
  ∃ rest, stdout (main example).2
          = ("Part one count:"%string, shared_cells example_claims) :: rest.
Proof.
  apply part_one_counts_shared_cells.
  - repeat constructor.
  - in_fabric_list.
Defined.

Lemma filter_only {A} (f : A → bool) (l : list A) a :
  NoDup l → a ∈ l → f a = true →
  length (List.filter f l) = 1%nat ↔ ∀ b, b ∈ l → b ≠ a → f b = false.
Proof.
  induction l as [|b l IH]; intros Hnd Ha Hfa; [by apply elem_of_nil in Ha|].
  apply NoDup_cons in Hnd as [Hb Hnd]. simpl.
  apply elem_of_cons in Ha as [->|Ha].
  - rewrite Hfa. simpl. split.
    + intros Hlen b' [->|Hb']%elem_of_cons Hne; [done|].
      destruct (f b') eqn:Hfb'; [|done].
      apply list_elem_of_In in Hb'.
      assert (In b' (List.filter f l)) as Hin by (apply filter_In; by split).
      destruct (List.filter f l); [done|]. simpl in Hlen. lia.
    + intros Hall. f_equal.
      destruct (List.filter f l) as [|b' l'] eqn:Hfl; [done|].
      assert (In b' (List.filter f l)) as Hin by (rewrite Hfl; by left).
      apply filter_In in Hin as [Hin Hfb'].
      apply list_elem_of_In in Hin.
      rewrite (Hall b') in Hfb'; [done|by right|]. by intros ->.
  - assert (b ≠ a) as Hne by by intros ->.
    destruct (f b) eqn:Hfb.
    + split.
      * simpl. intros Hlen.
        assert (In a (List.filter f l)) as Hin.
        { apply filter_In. split; [by apply list_elem_of_In|done]. }
        destruct (List.filter f l); [done|]. simpl in Hlen. lia.
      * intros Hall. rewrite (Hall b) in Hfb; [done|by left|done].
    + rewrite (IH Hnd Ha Hfa). split.
      * intros Hall b' [->|Hb']%elem_of_cons Hne'; [done|]. by apply Hall.
      * intros Hall b' Hb' Hne'. apply Hall; [by right|done].
Qed.

Lemma all_ones_apart st (cs : list (Z * Rect)) c :
  fabric_ok st →
  (∀ pos, Grid.inside (fabric st) pos = true →
          Grid.getitem (fabric st) pos = Ok (covering cs pos)) →
  NoDup cs → Forall (λ c, in_fabric c.2) cs → c ∈ cs →
  all_ones (fabric st) c.2 ↔ overlaps_none cs c.
Proof.
  intros Hok Hcells Hnd Hin Hc.
  assert (∀ pos, covers c.2 pos = true →
                 Grid.getitem (fabric st) pos = Ok (covering cs pos))
    as Hcell.
  { intros pos Hpos. apply Hcells.
    apply (proj1 (Forall_forall _ _) Hin c Hc) in Hpos.
    destruct pos as [i j]. simpl in Hpos. destruct Hpos.
    by apply inside_init. }
  unfold all_ones, overlaps_none. split.
  - intros Hones c' pos Hc' Hne Hpos.
    specialize (Hones pos Hpos). rewrite (Hcell pos Hpos) in Hones.
    injection Hones as Hones. unfold covering in Hones.
    apply (proj1 (filter_only (λ c, covers c.2 pos) cs c Hnd Hc Hpos));
      [lia|done..].
  - intros Hnone pos Hpos. rewrite (Hcell pos Hpos). f_equal.
    unfold covering.
    rewrite (proj2 (filter_only (λ c, covers c.2 pos) cs c Hnd Hc Hpos));
      [done|].
    intros c' Hc' Hne. by apply (Hnone c' pos).
Qed.

(** For claims with ids of their own, all the cells of a claim hold 1 after
    the reading exactly when no other claim of the file contains one of
    its cells: part two looks for a claim that overlaps no other. *)
Theorem all_ones_overlaps_none lines cs c :
  Forall2 (λ line c, parse_claim line = Ok c) lines cs →
  NoDup cs.*1 →
  Forall (λ c, in_fabric c.2) cs →
  c ∈ cs →
  all_ones (fabric (read_file lines init).2) c.2 ↔ overlaps_none cs c.
Proof.
  intros Hparse Hids Hin Hc.
  destruct (read_file_cells lines cs Hparse Hin)
    as (st & Hread & Hok & _ & Hcells).
  rewrite Hread. simpl. apply all_ones_apart; try done.
  by apply (NoDup_fmap_1 fst).
Qed.

Lemma all_ones_overlaps_none_witness :
  all_ones (fabric (read_file example init).2) (3, (5, 5, 2, 2)).2
  ↔ overlaps_none example_claims (3, (5, 5, 2, 2)).
Proof.
  apply all_ones_overlaps_none.
  - repeat constructor.
  - apply (bool_decide_unpack _). vm_compute. exact I.
  - in_fabric_list.
  - apply (bool_decide_unpack _). vm_compute. exact I.
Defined.

(** When the claims have ids of their own, [main] prints the number of
    shared positions and then the id of the first claim of the file that
    overlaps no other claim. *)
Theorem main_reports_claim_apart lines before c after :
  Forall2 (λ line c, parse_claim line = Ok c) lines (before ++ c :: after) →
  NoDup (before ++ c :: after).*1 →
  Forall (λ c, in_fabric c.2) (before ++ c :: after) →
  Forall (λ c', ¬ overlaps_none (before ++ c :: after) c') before →
  overlaps_none (before ++ c :: after) c →
  main lines
  = (Ok tt,
     mkState (fabric (read_file lines init).2) (before ++ c :: after)
       [("Part one count:"%string, shared_cells (before ++ c :: after));
        ("Part two ID:"%string, c.1)]).
Proof.
  intros Hparse Hids Hin Hbefore Hc.
  destruct (read_file_cells lines _ Hparse Hin)
    as (st & Hread & Hok & Hclaims & Hcells).
  rewrite (dict_of_distinct _ []) in Hclaims by done.
  assert (NoDup (before ++ c :: after)) as Hnd by by apply (NoDup_fmap_1 fst).
  destruct (main_reports lines st Hread) as (_ & _ & ->).
  rewrite Hread. simpl. unfold part_two. simpl. rewrite Hclaims.
  rewrite (overlaps_shared_cells st _ Hok Hcells).
  pose proof Hin as Hin'.
  apply Forall_app in Hin' as [Hin1 Hin2].
  apply Forall_cons in Hin2 as [Hin2 _].
  destruct c as [req rect].
  rewrite (check_claims_first _ before req rect after); try done.
  - apply Forall_and. split; [done|]. apply Forall_forall. intros c' Hc'.
    apply not_all_ones. simpl.
    rewrite (all_ones_apart st _ c' Hok Hcells Hnd Hin).
    + by apply (proj1 (Forall_forall _ _) Hbefore).
    + apply elem_of_app. by left.
  - simpl. apply ones_all_ones.
    apply (all_ones_apart st _ (req, rect) Hok Hcells Hnd Hin); [|done].
    apply elem_of_app. right. left.
Qed.

Lemma overlaps_some (cs : list (Z * Rect)) c c' pos :
  c' ∈ cs → c' ≠ c → covers c.2 pos = true → covers c'.2 pos = true →
  ¬ overlaps_none cs c.
Proof.
  intros Hc' Hne Hpos Hpos' Hnone.
  by rewrite (Hnone c' pos Hc' Hne Hpos) in Hpos'.
Qed.

Lemma main_reports_claim_apart_witness :
  main example
  = (Ok tt,
     mkState (fabric (read_file example init).2)
       ([(1, (1, 3, 4, 4)); (2, (3, 1, 4, 4))] ++ (3, (5, 5, 2, 2)) :: [])
       [("Part one count:"%string,
         shared_cells
           ([(1, (1, 3, 4, 4)); (2, (3, 1, 4, 4))] ++ (3, (5, 5, 2, 2)) :: []));
        ("Part two ID:"%string, (3, (5, 5, 2, 2)).1)]).
Proof.
  apply main_reports_claim_apart.
  - repeat constructor.
  - apply (bool_decide_unpack _). vm_compute. exact I.
  - in_fabric_list.
  - repeat apply List.Forall_cons; [| |apply List.Forall_nil].
    + apply (overlaps_some _ _ (2, (3, 1, 4, 4)) (3, 3));
        [|done|reflexivity..].
      apply (bool_decide_unpack _). vm_compute. exact I.
    + apply (overlaps_some _ _ (1, (1, 3, 4, 4)) (3, 3));
        [|done|reflexivity..].
      apply (bool_decide_unpack _). vm_compute. exact I.
  - intros c' pos Hc' Hne Hpos.
    apply elem_of_cons in Hc' as [->|Hc'].
    + destruct pos as [i j]. unfold covers in *. simpl in *.
      apply not_true_is_false. rewrite !andb_true_iff in *. lia.
    + apply elem_of_cons in Hc' as [->|Hc'].
      * destruct pos as [i j]. unfold covers in *. simpl in *.
        apply not_true_is_false. rewrite !andb_true_iff in *. lia.
      * apply list_elem_of_singleton in Hc'. done.
Defined.

(** ** The order and the number of the lines *)

Lemma Forall2_permutation {A B} (R : A → B → Prop) (l1 l2 : list A) k1 :
  l1 ≡ₚ l2 → Forall2 R l1 k1 → ∃ k2, k1 ≡ₚ k2 ∧ Forall2 R l2 k2.
Proof.
  intros Hperm. revert k1.
  induction Hperm as [|a l1 l2 _ IH|a b l|l1 l2 l3 _ IH1 _ IH2]; intros k1 HR.
  - apply Forall2_nil_inv_l in HR as ->. by exists [].
  - apply Forall2_cons_inv_l in HR as (c & k & Hc & Hk & ->).
    destruct (IH k Hk) as (k2 & Hperm & Hk2).
    exists (c :: k2). split; [by constructor|by constructor].
  - apply Forall2_cons_inv_l in HR as (c & k & Hc & Hk & ->).
    apply Forall2_cons_inv_l in Hk as (d & k' & Hd & Hk' & ->).
    exists (d :: c :: k'). split; [apply perm_swap|by repeat constructor].
  - destruct (IH1 k1 HR) as (k2 & Hperm2 & Hk2).
    destruct (IH2 k2 Hk2) as (k3 & Hperm3 & Hk3).
    exists k3. split; [by etrans|done].
Qed.

Lemma covering_permutation (cs1 cs2 : list (Z * Rect)) pos :
  cs1 ≡ₚ cs2 → covering cs1 pos = covering cs2 pos.
Proof.
  induction 1 as [|c cs1 cs2 _ IH|c d cs|cs1 cs2 cs3 _ IH1 _ IH2].
  - done.
  - by rewrite !covering_cons, IH.
  - rewrite !covering_cons. lia.
  - by rewrite IH1.
Qed.

(** Two well formed grids of one shape with the same cells are equal. *)
Lemma grid_ext {A} (g1 g2 : Grid.t A) :
  GridSpec.wf g1 → GridSpec.wf g2 →
  Grid.width g1 = Grid.width g2 → Grid.height g1 = Grid.height g2 →
  (∀ pos, Grid.inside g1 pos = true →
          Grid.getitem g1 pos = Grid.getitem g2 pos) →
  g1 = g2.
Proof.
  destruct g1 as [w1 h1 rows1], g2 as [w2 h2 rows2].
  intros [Hw1 Hh1 Hrows1 Hrow1] [Hw2 Hh2 Hrows2 Hrow2]. simpl in *.
  intros <- <- Hcells. f_equal.
  apply list_eq. intros n.
  destruct (decide (n < Z.to_nat h1)%nat) as [Hn|Hn];
    [|by rewrite !lookup_ge_None_2 by lia].
  destruct (lookup_lt_is_Some_2 rows1 n) as [r1 Hr1]; [lia|].
  destruct (lookup_lt_is_Some_2 rows2 n) as [r2 Hr2]; [lia|].
  rewrite Hr1, Hr2. f_equal.
  pose proof (Forall_lookup_1 _ _ _ _ Hrow1 Hr1) as Hlen1.
  pose proof (Forall_lookup_1 _ _ _ _ Hrow2 Hr2) as Hlen2.
  simpl in Hlen1, Hlen2.
  apply list_eq. intros m.
  destruct (decide (m < Z.to_nat w1)%nat) as [Hm|Hm];
    [|by rewrite !lookup_ge_None_2 by lia].
  destruct (lookup_lt_is_Some_2 r1 m) as [v1 Hv1]; [lia|].
  destruct (lookup_lt_is_Some_2 r2 m) as [v2 Hv2]; [lia|].
  rewrite Hv1, Hv2. f_equal.
  specialize (Hcells (Z.of_nat m, Z.of_nat n)).
  unfold Grid.getitem, Grid.inside in Hcells. simpl in Hcells.
  rewrite !Nat2Z.id, Hr1, Hr2, Hv1, Hv2 in Hcells.
  destruct (0 <=? Z.of_nat m) eqn:H1; [|lia].
  destruct (Z.of_nat m <? w1) eqn:H2; [|lia].
  destruct (0 <=? Z.of_nat n) eqn:H3; [|lia].
  destruct (Z.of_nat n <? h1) eqn:H4; [|lia].
  simpl in Hcells. by injection (Hcells eq_refl).
Qed.

(** The fabric does not depend on the order of the lines: a file with the
    same lines in another order is read to its end as well and leaves the
    same fabric, so that part one prints the same number. *)
Theorem fabric_of_permuted_lines lines1 lines2 cs1 :
  lines1 ≡ₚ lines2 →
  Forall2 (λ line c, parse_claim line = Ok c) lines1 cs1 →
  Forall (λ c, in_fabric c.2) cs1 →
  (read_file lines2 init).1 = Ok tt ∧
  fabric (read_file lines2 init).2 = fabric (read_file lines1 init).2 ∧
  ∃ rest1 rest2,
    stdout (main lines1).2
    = ("Part one count:"%string, shared_cells cs1) :: rest1 ∧
    stdout (main lines2).2
    = ("Part one count:"%string, shared_cells cs1) :: rest2.
Proof.
  intros Hperm Hparse1 Hin1.
  destruct (Forall2_permutation _ _ _ _ Hperm Hparse1) as (cs2 & Hcs & Hparse2).
  assert (Forall (λ c, in_fabric c.2) cs2) as Hin2 by by rewrite <-Hcs.
  destruct (read_file_cells lines1 cs1 Hparse1 Hin1)
    as (st1 & Hread1 & Hok1 & _ & Hcells1).
  destruct (read_file_cells lines2 cs2 Hparse2 Hin2)
    as (st2 & Hread2 & Hok2 & _ & Hcells2).
  destruct (main_shared_cells lines1 cs1 Hparse1 Hin1) as [_ [rest1 Hout1]].
  destruct (main_shared_cells lines2 cs2 Hparse2 Hin2) as [_ [rest2 Hout2]].
  rewrite Hread1, Hread2. simpl. split_and!; [done| |].
  - destruct Hok1 as (Hwf1 & Hw1 & Hh1), Hok2 as (Hwf2 & Hw2 & Hh2).
    apply grid_ext; [done|done|congruence|congruence|].
    intros pos Hpos. rewrite Hcells2 by done.
    rewrite Hcells1; [by rewrite (covering_permutation cs1 cs2)|].
    by rewrite (inside_shape (fabric st2) (fabric st1)) by congruence.
  - exists rest1, rest2. split; [done|]. rewrite Hout2. do 2 f_equal.
    unfold shared_cells. do 2 f_equal. apply filter_ext. intros pos.
    by rewrite (covering_permutation cs1 cs2).
Qed.

Lemma fabric_of_permuted_lines_witness :
  (read_file (reverse example) init).1 = Ok tt ∧
  fabric (read_file (reverse example) init).2
  = fabric (read_file example init).2 ∧
  ∃ rest1 rest2,
    stdout (main example).2
    = ("Part one count:"%string, shared_cells example_claims) :: rest1 ∧
    stdout (main (reverse example)).2
    = ("Part one count:"%string, shared_cells example_claims) :: rest2.
Proof.
  apply fabric_of_permuted_lines.
  - symmetry. apply reverse_Permutation.
  - repeat constructor.
  - in_fabric_list.
Defined.

Lemma covering_app (cs1 cs2 : list (Z * Rect)) pos :
  covering (cs1 ++ cs2) pos = covering cs1 pos + covering cs2 pos.
Proof.
  induction cs1 as [|c cs1 IH]; [unfold covering; simpl; lia|].
  change ((c :: cs1) ++ cs2) with (c :: (cs1 ++ cs2)).
  rewrite !covering_cons, IH. lia.
Qed.

Lemma filter_length_mono {A} (f g : A → bool) (l : list A) :
  (∀ a, f a = true → g a = true) →
  (length (List.filter f l) ≤ length (List.filter g l))%nat.
Proof.
  intros Hfg. induction l as [|a l IH]; simpl; [done|].
  destruct (f a) eqn:Hfa.
  - rewrite (Hfg a Hfa). simpl. lia.
  - destruct (g a); simpl; lia.
Qed.

(** More lines never lower a cell nor the number of part one: with the
    lines of a second list after those of a first, every cell holds at
    least what the first list alone leaves in it, and part one prints at
    least the number it prints for the first list alone. *)
Theorem more_lines_more_overlaps lines1 lines2 cs1 cs2 :
  Forall2 (λ line c, parse_claim line = Ok c) lines1 cs1 →
  Forall2 (λ line c, parse_claim line = Ok c) lines2 cs2 →
  Forall (λ c, in_fabric c.2) cs1 → Forall (λ c, in_fabric c.2) cs2 →
  (∀ i j, 0 ≤ i < 1000 → 0 ≤ j < 1000 →
     ∃ v1 v2,
       Grid.getitem (fabric (read_file lines1 init).2) (i, j) = Ok v1 ∧
       Grid.getitem (fabric (read_file (lines1 ++ lines2) init).2) (i, j)
       = Ok v2 ∧
       v1 ≤ v2) ∧
  ∃ n1 n2 rest1 rest2,
    stdout (main lines1).2 = ("Part one count:"%string, n1) :: rest1 ∧
    stdout (main (lines1 ++ lines2)).2
    = ("Part one count:"%string, n2) :: rest2 ∧
    n1 ≤ n2.
Proof.
  intros Hparse1 Hparse2 Hin1 Hin2.
  assert (Forall2 (λ line c, parse_claim line = Ok c) (lines1 ++ lines2)
            (cs1 ++ cs2)) as Hparse by by apply Forall2_app.
  assert (Forall (λ c, in_fabric c.2) (cs1 ++ cs2)) as Hin
    by by apply Forall_app.
  destruct (read_file_cells lines1 cs1 Hparse1 Hin1)
    as (st1 & Hread1 & Hok1 & _ & Hcells1).
  destruct (read_file_cells _ _ Hparse Hin)
    as (st2 & Hread2 & Hok2 & _ & Hcells2).
  destruct (main_shared_cells lines1 cs1 Hparse1 Hin1) as [_ [rest1 Hout1]].
  destruct (main_shared_cells _ _ Hparse Hin) as [_ [rest2 Hout2]].
  rewrite Hread1, Hread2. simpl. split.
  - intros i j Hi Hj.
    exists (covering cs1 (i, j)), (covering (cs1 ++ cs2) (i, j)).
    split_and!.
    + apply Hcells1. by apply inside_init.
    + apply Hcells2. by apply inside_init.
    + rewrite covering_app. pose proof (covering_nonneg cs2 (i, j)). lia.
  - exists (shared_cells cs1), (shared_cells (cs1 ++ cs2)), rest1, rest2.
    split_and!; [done..|].
    unfold shared_cells. apply inj_le, filter_length_mono.
    intros pos Hpos. rewrite covering_app.
    pose proof (covering_nonneg cs2 pos). lia.
Qed.

Lemma more_lines_more_overlaps_witness :
  (∀ i j, 0 ≤ i < 1000 → 0 ≤ j < 1000 →
     ∃ v1 v2,
       Grid.getitem (fabric (read_file overlapping init).2) (i, j) = Ok v1 ∧
       Grid.getitem (fabric (read_file (overlapping ++ example) init).2) (i, j)
       = Ok v2 ∧
       v1 ≤ v2) ∧
  ∃ n1 n2 rest1 rest2,
    stdout (main overlapping).2 = ("Part one count:"%string, n1) :: rest1 ∧
    stdout (main (overlapping ++ example)).2
    = ("Part one count:"%string, n2) :: rest2 ∧
    n1 ≤ n2.
Proof.
  apply (more_lines_more_overlaps overlapping example
           [(1, (0, 0, 2, 2)); (2, (1, 1, 2, 2))] example_claims).
  - repeat constructor.
  - repeat constructor.
  - in_fabric_list.
  - in_fabric_list.
Defined.

Lemma length_bind_const {A B} (f : A → list B) (l : list A) k :
  (∀ a, length (f a) = k) → length (l ≫= f) = (length l * k)%nat.
Proof.
  intros Hf. induction l as [|a l IH]; [done|].
  rewrite bind_cons, length_app, Hf, IH. simpl. lia.
Qed.

Lemma length_positions {A} (g : Grid.t A) :
  length (GridSpec.positions g)
  = (Z.to_nat (Grid.height g) * Z.to_nat (Grid.width g))%nat.
Proof.
  unfold GridSpec.positions.
  rewrite (length_bind_const _ _ (Z.to_nat (Grid.width g))).
  - by rewrite length_seqZ.
  - intros j. rewrite (length_bind_const _ _ 1%nat); [|done].
    rewrite length_seqZ. lia.
Qed.

Lemma filter_length_all {A} (f : A → bool) (l : list A) :
  (length (List.filter f l) ≤ length l)%nat.
Proof.
  induction l as [|a l IH]; simpl; [done|]. destruct (f a); simpl; lia.
Qed.

(** The number that part one prints lies between 0 and the 1000000 cells
    of the grid, whatever the file. *)
Theorem part_one_count_bounds lines n rest :
  stdout (main lines).2 = ("Part one count:"%string, n) :: rest →
  0 ≤ n ≤ 1000000.
Proof.
  intros Hout.
  destruct (read_file lines init) as [[[]|e] st] eqn:Hread.
  - destruct (read_file_init lines st Hread) as (_ & _ & _ & Hok & _).
    destruct (main_returns lines st Hread) as (out & Hmain & Hcases).
    rewrite Hmain in Hout. simpl in Hout.
    assert (n = overlaps (fabric st)) as Hn.
    { destruct Hcases as [Hc|(before & req & rect & after & _ & _ & _ & Hc)];
        rewrite Hc in Hout; injection Hout; intros; congruence. }
    rewrite Hn.
    destruct Hok as (_ & Hw & Hh). unfold overlaps.
    pose proof (filter_length_all
      (λ pos, match Grid.getitem (fabric st) pos with
              | Ok v => 1 <? v
              | Raise _ => false
              end) (GridSpec.positions (fabric st))) as Hle.
    rewrite length_positions, Hw, Hh in Hle. unfold width in Hle. lia.
  - pose proof (read_file_stdout lines init) as Hnone.
    rewrite (main_read_Raise lines e st Hread) in Hout.
    rewrite Hread in Hnone. simpl in *. by rewrite Hnone in Hout.
Qed.

Lemma part_one_count_bounds_witness : 0 ≤ 4 ≤ 1000000.
Proof.
  apply (part_one_count_bounds example 4 [("Part two ID:"%string, 3)]).
  vm_compute. reflexivity.
Defined.
